(** * The Book schema of [graph_ql/schema.py]: resolvers and mutations

    A shallow embedding of the GraphQL schema of the repository: the three
    query resolvers of [Query] and the [mutate] methods of [CreateBook],
    [UpdateBook] and [DeleteBook], over an explicit model of the [Book]
    table they reach through the model manager [Book.objects].

    The Python methods read and write the table, and may raise; they are
    embedded in a small state-and-exception monad whose computations return
    the outcome of the call together with the table it leaves behind, so
    that what a raising call did to the table can be stated too.

    The update and delete mutations look a record up by a GraphQL [ID], a
    string that the key column coerces to an integer.  The coercion is a
    parameter (the class [AutoField]), fixed on the plain decimal literals
    and free elsewhere; what mentions it is proved for every such
    coercion. *)

From Stdlib Require Import ZArith List String Ascii Bool Lia.
Import ListNotations.
Open Scope Z_scope.

(** ** Python values *)

(** Equality of two optional values, [None] standing for Python's [None]
    (SQL [NULL] once stored). *)
Definition opt_eqb {A : Type} (eqb : A -> A -> bool) (x y : option A) : bool :=
  match x, y with
  | None, None => true
  | Some a, Some b => eqb a b
  | _, _ => false
  end.

(** The exceptions the calls of the schema can raise.  [DoesNotExist] and
    [MultipleObjectsReturned] are those of [Book.objects.get]; [ValueError]
    is the failed coercion of a key that is not a number; [TypeError] is
    Python's, for a method called without one of its arguments;
    [IncompatibleInstance] is raised by the executor when a field declared
    with the object type [BookType] resolves to something that is not a
    model instance, [NotIterable] when a list field resolves to something
    that is not a collection; [OtherError] stands for any other exception
    of the storage layer. *)
Inductive exn : Type :=
| DoesNotExist
| MultipleObjectsReturned
| ValueError
| TypeError
| IncompatibleInstance
| NotIterable
| OtherError (name : string).

(** The errors that tell that an identifier has no stored record. *)
Definition not_found (e : exn) : bool :=
  match e with
  | DoesNotExist => true
  | _ => false
  end.

(** ** The coercion of a GraphQL [ID] to a primary key

    [graphene.ID] hands the resolver a Python [str] (or [None]), held here
    as its UTF-8 bytes.  The lookup [Book.objects.get(pk=...)] has the
    integer key column coerce it with [int(value)].

    [PyInt.int] is what [int] answers on the plain literals, and only on
    them: strings of ASCII characters with at most 18 digits.  There,
    [int] skips the white space of the C locale (tab, line feed, vertical
    tab, form feed, carriage return, space) on both sides, reads one
    optional sign and then decimal digits, with single underscores allowed
    between digits, and raises [ValueError] on anything else.  On the other
    strings (characters beyond ASCII, among them the decimal digits and
    spaces of other scripts, which [int] accepts; literals long enough to
    meet the interpreter's limit on digits or the range of the column)
    [PyInt.int] answers nothing. *)
Module PyInt.

Definition code (c : ascii) : Z := Z.of_nat (nat_of_ascii c).

Definition is_ascii (c : ascii) : bool := code c <? 128.

Definition is_space (c : ascii) : bool :=
  ((9 <=? code c) && (code c <=? 13)) || (code c =? 32).

Definition digit_of (c : ascii) : option Z :=
  if (48 <=? code c) && (code c <=? 57) then Some (code c - 48) else None.

Definition is_digit (c : ascii) : bool :=
  match digit_of c with
  | Some _ => true
  | None => false
  end.

Fixpoint lstrip (l : list ascii) : list ascii :=
  match l with
  | c :: l' => if is_space c then lstrip l' else l
  | [] => []
  end.

Definition strip (l : list ascii) : list ascii :=
  rev (lstrip (rev (lstrip l))).

(** [digits acc after_digit l]: the value of the digit string [l] read after
    the prefix of value [acc]; [after_digit] tells whether the previous
    character was a digit, which is when an underscore or the end of the
    literal is allowed. *)
Fixpoint digits (acc : Z) (after_digit : bool) (l : list ascii) : option Z :=
  match l with
  | [] => if after_digit then Some acc else None
  | c :: l' =>
      if Ascii.eqb c "_"%char then
        if after_digit then digits acc false l' else None
      else
        match digit_of c with
        | Some d => digits (10 * acc + d) true l'
        | None => None
        end
  end.

(** The value of a literal without surrounding white space; [None] when it
    is not one. *)
Definition literal (l : list ascii) : option Z :=
  match l with
  | "+"%char :: l' => digits 0 false l'
  | "-"%char :: l' => option_map Z.opp (digits 0 false l')
  | _ => digits 0 false l
  end.

(** The plain strings: ASCII, at most 18 digits. *)
Definition plain (l : list ascii) : bool :=
  forallb is_ascii l && (List.length (filter is_digit l) <=? 18)%nat.

(** [Some (inr k)]: [int] returns [k]; [Some (inl ValueError)]: [int]
    raises; [None]: the string is not plain, and nothing is said. *)
Definition int (s : string) : option (exn + Z) :=
  let l := list_ascii_of_string s in
  if plain l then
    match literal (strip l) with
    | Some k => Some (inr k)
    | None => Some (inl ValueError)
    end
  else None.

(** The characters no literal holds: neither a digit, a sign, an underscore
    nor one of the six white space characters. *)
Definition stray (c : ascii) : Prop :=
  ~ 9 <= code c <= 13 /\ code c <> 32 /\ ~ 48 <= code c <= 57 /\
  code c <> 43 /\ code c <> 45 /\ code c <> 95.

(** [str(k)], the decimal writing of an integer: its digits, most
    significant first, after a minus sign when it is negative. *)
Definition digit_char (d : Z) : ascii := ascii_of_nat (Z.to_nat (48 + d)).

(** The digits of [n] put before [acc]; [fuel] bounds their number. *)
Fixpoint to_digits (fuel : nat) (n : Z) (acc : list ascii) : list ascii :=
  match fuel with
  | O => acc
  | S fuel' =>
      let acc' := digit_char (n mod 10) :: acc in
      if n <? 10 then acc' else to_digits fuel' (n / 10) acc'
  end.

Definition str (k : Z) : string :=
  let n := Z.abs k in
  let ds := to_digits (S (Z.to_nat (Z.log2 n))) n [] in
  string_of_list_ascii (if k <? 0 then "-"%char :: ds else ds).

End PyInt.

(** Modelled from the spec: the key of the model, which [models.py]
    declares, is the storage-generated integer [id].  This is that integer
    key column, as far as the lookups use it: [get_prep_value] is the
    coercion of a [str] to a key, which returns the key or raises.  On the plain strings it is [int]; what it does on the
    others (which depends on the interpreter and on the storage) is left
    open, so that what is proved holds whatever it does there.  The
    exceptions of the model manager, [DoesNotExist] and
    [MultipleObjectsReturned], are not among those it raises. *)
Class AutoField : Type := {
  get_prep_value : string -> exn + Z;
  get_prep_value_plain :
    forall s r, PyInt.int s = Some r -> get_prep_value s = r;
  get_prep_value_raises :
    forall s e, get_prep_value s = inl e ->
                e <> DoesNotExist /\ e <> MultipleObjectsReturned
}.

(** One of the columns the class describes, on which the schema can be run
    on sample data: it raises [ValueError] on every string that is not
    plain.  It is not meant as the column of the program, which accepts
    more; nothing is proved of it alone. *)
Definition strict_keys : AutoField.
Proof.
  refine {| get_prep_value := fun s =>
              match PyInt.int s with
              | Some r => r
              | None => inl ValueError
              end |}.
  - intros s r E. rewrite E. reflexivity.
  - intros s e. unfold PyInt.int.
    destruct (PyInt.plain (list_ascii_of_string s)).
    + destruct (PyInt.literal (PyInt.strip (list_ascii_of_string s)));
        intros E; inversion E; split; discriminate.
    + intros E; inversion E; split; discriminate.
Defined.

(** ** The Book model and its table *)

(** Modelled from the spec: the declaration of the [Book] model
    ([models.py]) is not among the sources.  The fields are those of the
    spec's data model: a storage-generated [id], title, author and year
    published as text, review as an integer, none of them declared
    required, so each may hold [None].

    This is the Python instance; its [id] is [None] until it has been
    saved. *)
Module Book.
Record t : Type := mk {
  id : option Z;
  title : option string;
  author : option string;
  year_published : option string;
  review : option Z
}.
End Book.

(** Modelled from the spec: a row of the table of the [Book] model, which
    [models.py] declares; a saved book, with its primary key. *)
Module Row.
Record t : Type := mk {
  id : Z;
  title : option string;
  author : option string;
  year_published : option string;
  review : option Z
}.
End Row.

(** The [id] field of [BookType], which exposes all the fields of the
    model: the key is an [ID], which the executor writes with [str]. *)
Module BookType.
Definition id (b : Book.t) : option string := option_map PyInt.str (Book.id b).
End BookType.

(** The instance built from a row read from the table. *)
Definition from_db (r : Row.t) : Book.t :=
  Book.mk (Some (Row.id r)) (Row.title r) (Row.author r)
    (Row.year_published r) (Row.review r).

(** The row written for an instance under key [k]. *)
Definition to_row (k : Z) (b : Book.t) : Row.t :=
  Row.mk k (Book.title b) (Book.author b) (Book.year_published b)
    (Book.review b).

(** The stored state: the rows of the table in storage order, and the next
    value of the auto-increment sequence of the primary key. *)
Record Store : Type := mkStore {
  table : list Row.t;
  next_id : Z
}.

Definition empty_store : Store := mkStore [] 1.

Definition has_id (k : Z) (r : Row.t) : bool := Row.id r =? k.

(** The storage invariant: the primary key is unique, and the sequence is
    past every key in use. *)
Definition wf (db : Store) : Prop :=
  NoDup (map Row.id (table db)) /\
  Forall (fun r => Row.id r < next_id db) (table db).

(** ** The monad of resolver calls *)

Definition M (A : Type) : Type := Store -> (exn + A) * Store.

Definition ret {A : Type} (a : A) : M A := fun db => (inr a, db).

Definition raise {A : Type} (e : exn) : M A := fun db => (inl e, db).

Definition bind {A B : Type} (m : M A) (f : A -> M B) : M B :=
  fun db =>
    match m db with
    | (inl e, db') => (inl e, db')
    | (inr a, db') => f a db'
    end.

Declare Scope py_scope.
Delimit Scope py_scope with py.
Notation "x <- m ;; k" := (bind m (fun x => k))
  (at level 61, m at next level, right associativity) : py_scope.
Notation "m ;;; k" := (bind m (fun _ => k))
  (at level 61, right associativity) : py_scope.
Open Scope py_scope.

(** The outcome of a call and the store it leaves. *)
Definition outcome {A : Type} (m : M A) (db : Store) : exn + A := fst (m db).
Definition store_after {A : Type} (m : M A) (db : Store) : Store := snd (m db).

(** ** The model manager [Book.objects] and the instance methods *)

Module objects.

(** [Book.objects.all()]. *)
Definition all : M (list Book.t) :=
  fun db => (inr (map from_db (table db)), db).

(** [Book.objects.get(pk=k)] for a key already coerced: the rows with that
    key are selected; one row is the result, none raises [DoesNotExist],
    several raise [MultipleObjectsReturned].  A [None] key is compared with
    [IS NULL] and selects nothing. *)
Definition get (pk : option Z) : M Book.t :=
  fun db =>
    match pk with
    | None => (inl DoesNotExist, db)
    | Some k =>
        match filter (has_id k) (table db) with
        | [] => (inl DoesNotExist, db)
        | [r] => (inr (from_db r), db)
        | _ :: _ :: _ => (inl MultipleObjectsReturned, db)
        end
    end.

(** The coercion of the [ID] argument ([str] or [None]) to the key: [None]
    is kept, a [str] goes through the key column and may raise. *)
Definition to_pk {K : AutoField} (i : option string) : M (option Z) :=
  match i with
  | None => ret None
  | Some s =>
      match get_prep_value s with
      | inr k => ret (Some k)
      | inl e => raise e
      end
  end.

(** [Book.objects.get(pk=i)] for an [ID] argument. *)
Definition get_id {K : AutoField} (i : option string) : M Book.t :=
  k <- to_pk i ;; get k.

(** [Book.objects.filter(review__exact=v)]; a [None] value selects the rows
    whose review is [NULL]. *)
Definition filter_review (v : option Z) : M (list Book.t) :=
  fun db =>
    (inr (map from_db
            (filter (fun r => opt_eqb Z.eqb (Row.review r) v) (table db))),
     db).

End objects.

(** [instance.save()]: an instance without a key is inserted under the next
    value of the sequence and receives that key; an instance with a key
    updates the rows of that key, or is inserted under it when there is
    none. *)
Definition save (b : Book.t) : M Book.t :=
  fun db =>
    match Book.id b with
    | None =>
        let k := next_id db in
        (inr (from_db (to_row k b)),
         mkStore (table db ++ [to_row k b]) (k + 1))
    | Some k =>
        if existsb (has_id k) (table db) then
          (inr b,
           mkStore (map (fun r => if has_id k r then to_row k b else r)
                      (table db))
             (next_id db))
        else
          (inr b,
           mkStore (table db ++ [to_row k b]) (Z.max (next_id db) (k + 1)))
    end.

(** [instance.delete()]: the rows of the instance's key are removed; an
    instance that was never saved cannot be deleted. *)
Definition delete (b : Book.t) : M unit :=
  fun db =>
    match Book.id b with
    | None => (inl ValueError, db)
    | Some k =>
        (inr tt,
         mkStore (filter (fun r => negb (has_id k r)) (table db)) (next_id db))
    end.

(** Python's truth value of a model instance: the class defines neither
    [__bool__] nor [__len__], so every instance is true. *)
Definition truthy (b : Book.t) : bool := true.

(** ** The schema *)

(** What a resolver hands back to the executor. *)
Inductive value : Type :=
| VNone
| VBook (b : Book.t)
| VQuerySet (l : list Book.t).

(** The declared type of a field of [Query]: [graphene.List(BookType)] or
    [graphene.Field(BookType, ...)]. *)
Inductive gtype : Type :=
| List_BookType
| Field_BookType.

(** What the executor answers for a field. *)
Inductive response : Type :=
| RNull
| RObject (b : Book.t)
| RList (l : list Book.t).

(** Completion of a resolved value against the declared type of its field:
    a list field iterates over the value, an object field takes one model
    instance and rejects anything else; [None] is [null] for both. *)
Definition complete (t : gtype) (v : value) : M response :=
  match t, v with
  | _, VNone => ret RNull
  | List_BookType, VQuerySet l => ret (RList l)
  | List_BookType, VBook _ => raise NotIterable
  | Field_BookType, VBook b => ret (RObject b)
  | Field_BookType, VQuerySet _ => raise IncompatibleInstance
  end.

Module Query.

(** The declarations of the three fields. *)
Definition all_books : gtype := List_BookType.
Definition book : gtype := Field_BookType.
Definition review : gtype := Field_BookType.

Definition resolve_all_books : M value :=
  l <- objects.all ;; ret (VQuerySet l).

Definition resolve_book (book_id : option Z) : M value :=
  b <- objects.get book_id ;; ret (VBook b).

Definition resolve_review (book_review : option Z) : M value :=
  l <- objects.filter_review book_review ;; ret (VQuerySet l).

End Query.

(** The three queries as the executor runs them: the resolver, then the
    completion of its result against the declared type. *)
Definition query_all_books : M response :=
  v <- Query.resolve_all_books ;; complete Query.all_books v.

Definition query_book (book_id : option Z) : M response :=
  v <- Query.resolve_book book_id ;; complete Query.book v.

Definition query_review (book_review : option Z) : M response :=
  v <- Query.resolve_review book_review ;; complete Query.review v.

Module BookInput.
Record t : Type := mk {
  id : option string;
  title : option string;
  author : option string;
  year_published : option string;
  review : option Z
}.

Definition set_id (i : option string) (d : t) : t :=
  mk i (title d) (author d) (year_published d) (review d).
End BookInput.

(** The payload object of a mutation, [CreateBook(book=...)] and the like:
    its one declared field [book]. *)
Record Payload : Type := mkPayload { book : option Book.t }.

Module CreateBook.

Definition mutate (book_data : BookInput.t) : M Payload :=
  let book_instance :=
    Book.mk None (BookInput.title book_data) (BookInput.author book_data)
      (BookInput.year_published book_data) (BookInput.review book_data) in
  book_instance <- save book_instance ;;
  ret (mkPayload (Some book_instance)).

End CreateBook.

Module UpdateBook.

(** The four assignments to the attributes of the instance. *)
Definition assign (book_instance : Book.t) (book_data : BookInput.t) : Book.t :=
  Book.mk (Book.id book_instance) (BookInput.title book_data)
    (BookInput.author book_data) (BookInput.year_published book_data)
    (BookInput.review book_data).

Definition mutate {K : AutoField} (book_data : BookInput.t) : M Payload :=
  book_instance <- objects.get_id (BookInput.id book_data) ;;
  if truthy book_instance then
    book_instance <- save (assign book_instance book_data) ;;
    ret (mkPayload (Some book_instance))
  else
    ret (mkPayload None).

End UpdateBook.

Module DeleteBook.

(** The method returns [None], not a payload object. *)
Definition mutate {K : AutoField} (id : option string) : M (option Payload) :=
  book_instance <- objects.get_id id ;;
  delete book_instance ;;;
  ret None.

End DeleteBook.

(** A keyword argument of a resolver call: the executor passes the
    arguments the request gives, [null] as [None], and leaves out those it
    does not give. *)
Inductive kwarg (A : Type) : Type :=
| Omitted
| Passed (a : A).
Arguments Omitted {A}.
Arguments Passed {A} a.

(** The fields of [Mutation], as the executor calls them.  [book_data] is
    declared required and is always passed; the [id] of [delete_book] is
    not, and [DeleteBook.mutate] has no default for it: without it the call
    itself raises [TypeError]. *)
Module Mutation.

Definition create_book (book_data : BookInput.t) : M Payload :=
  CreateBook.mutate book_data.

Definition update_book {K : AutoField} (book_data : BookInput.t) : M Payload :=
  UpdateBook.mutate book_data.

Definition delete_book {K : AutoField} (id : kwarg (option string)) :
  M (option Payload) :=
  match id with
  | Omitted => raise TypeError
  | Passed i => DeleteBook.mutate i
  end.

End Mutation.

(** The [book] field of what a mutation method returned, as the client
    reads it: that of the payload, and [null] when there is no payload. *)
Definition book_of (p : option Payload) : option Book.t :=
  match p with
  | Some p => book p
  | None => None
  end.

(** ** Sample data *)

Definition book_A : BookInput.t :=
  BookInput.mk None (Some "A"%string) (Some "B"%string) (Some "2020"%string)
    (Some 5).

Definition book_A2 : BookInput.t :=
  BookInput.mk (Some "1"%string) (Some "A2"%string) (Some "B"%string)
    (Some "2020"%string) (Some 5).

Definition book_abc : BookInput.t :=
  BookInput.mk (Some "abc"%string) (Some "A"%string) (Some "B"%string)
    (Some "2020"%string) (Some 5).

Definition row1 : Row.t :=
  Row.mk 1 (Some "A"%string) (Some "B"%string) (Some "2020"%string) (Some 5).
Definition row2 : Row.t :=
  Row.mk 2 (Some "C"%string) (Some "D"%string) (Some "1999"%string) (Some 3).
Definition row3 : Row.t :=
  Row.mk 3 (Some "E"%string) None (Some "2001"%string) (Some 5).

Definition store3 : Store := mkStore [row1; row2; row3] 4.

(** ** Reading the claims *)

(** The key an [ID] argument denotes: none for [None] and for a string that
    is not a number. *)
Definition key_of {K : AutoField} (i : option string) : option Z :=
  match i with
  | Some s =>
      match get_prep_value s with
      | inr k => Some k
      | inl _ => None
      end
  | None => None
  end.

(** [r] is the one stored record of key [k]. *)
Definition identifies (k : Z) (r : Row.t) (db : Store) : Prop :=
  filter (has_id k) (table db) = [r].

(** No stored record has the key [pk]. *)
Definition absent (pk : option Z) (db : Store) : Prop :=
  forall r, In r (table db) -> pk <> Some (Row.id r).

(** The exception of a lookup by an [ID] that selects no row: that of the
    coercion when it raises, [DoesNotExist] for the empty selection
    otherwise. *)
Definition lookup_error {K : AutoField} (i : option string) : exn :=
  match i with
  | Some s =>
      match get_prep_value s with
      | inr _ => DoesNotExist
      | inl e => e
      end
  | None => DoesNotExist
  end.

(** The update of the rows of key [k] that [save] performs. *)
Definition overwrite (k : Z) (b : Book.t) (r : Row.t) : Row.t :=
  if has_id k r then to_row k b else r.

(** The instance a mutation returns for the input [d] under the key [k]:
    that key and the four fields of the input. *)
Definition updated (k : Z) (d : BookInput.t) : Book.t :=
  Book.mk (Some k) (BookInput.title d) (BookInput.author d)
    (BookInput.year_published d) (BookInput.review d).

(** The mutations a client can send, and the store each leaves. *)
Inductive request : Type :=
| Create (book_data : BookInput.t)
| Update (book_data : BookInput.t)
| Delete (id : option string).

Definition perform {K : AutoField} (q : request) (db : Store) : Store :=
  match q with
  | Create d => store_after (CreateBook.mutate d) db
  | Update d => store_after (UpdateBook.mutate d) db
  | Delete i => store_after (DeleteBook.mutate i) db
  end.

(** The stores the schema can bring about, starting from the empty table. *)
Inductive reachable {K : AutoField} : Store -> Prop :=
| reach_empty : reachable empty_store
| reach_step (q : request) (db : Store) :
    reachable db -> reachable (perform q db).

(** * Properties *)

(** ** Selections of the table *)

Section Selection.

Variable k : Z.

Lemma has_id_true (r : Row.t) : has_id k r = true <-> Row.id r = k.
Proof. unfold has_id. apply Z.eqb_eq. Qed.

Lemma has_id_false (r : Row.t) : has_id k r = false <-> Row.id r <> k.
Proof. unfold has_id. apply Z.eqb_neq. Qed.

Lemma filter_none (l : list Row.t) :
  (forall r, In r l -> Row.id r <> k) -> filter (has_id k) l = [].
Proof.
  induction l as [|a l IH]; intros H; simpl; [reflexivity|].
  assert (Ha : has_id k a = false) by (apply has_id_false, H; left; reflexivity).
  rewrite Ha. apply IH. intros r Hr. apply H. right. exact Hr.
Qed.

Lemma filter_none_inv (l : list Row.t) :
  filter (has_id k) l = [] -> forall r, In r l -> Row.id r <> k.
Proof.
  intros H r Hr Hk.
  assert (Hin : In r (filter (has_id k) l))
    by (apply filter_In; split; [exact Hr | apply has_id_true, Hk]).
  rewrite H in Hin. exact Hin.
Qed.

(** Under a unique key, the selection by the key of a stored row is that
    row alone. *)
Lemma filter_unique (l : list Row.t) (r : Row.t) :
  NoDup (map Row.id l) -> In r l -> Row.id r = k -> filter (has_id k) l = [r].
Proof.
  induction l as [|a l IH]; intros Hnd Hin Hk; [destruct Hin|].
  simpl in Hnd. inversion Hnd as [|x xs Hnotin Hnd']; subst x xs.
  simpl. destruct Hin as [-> | Hin].
  - assert (Hr : has_id k r = true) by (apply has_id_true, Hk).
    rewrite Hr. f_equal. apply filter_none.
    intros r' Hr' Hk'. apply Hnotin. rewrite Hk, <- Hk'.
    apply in_map, Hr'.
  - assert (Ha : has_id k a = false).
    { apply has_id_false. intros Hak. apply Hnotin.
      rewrite Hak, <- Hk. apply in_map, Hin. }
    rewrite Ha. apply IH; assumption.
Qed.

End Selection.

Lemma wf_identifies (db : Store) (r : Row.t) :
  wf db -> In r (table db) -> identifies (Row.id r) r db.
Proof.
  intros [Hnd _] Hin. apply filter_unique; [exact Hnd | exact Hin | reflexivity].
Qed.

Lemma identifies_In (k : Z) (r : Row.t) (db : Store) :
  identifies k r db -> In r (table db) /\ Row.id r = k.
Proof.
  unfold identifies. intros H.
  assert (Hin : In r (filter (has_id k) (table db))) by (rewrite H; left; reflexivity).
  apply filter_In in Hin. destruct Hin as [Hin Hk].
  split; [exact Hin | apply has_id_true, Hk].
Qed.

(** ** The lookups *)

Lemma get_found (k : Z) (r : Row.t) (db : Store) :
  identifies k r db -> objects.get (Some k) db = (inr (from_db r), db).
Proof. unfold identifies, objects.get. intros ->. reflexivity. Qed.

Lemma get_absent (pk : option Z) (db : Store) :
  absent pk db -> objects.get pk db = (inl DoesNotExist, db).
Proof.
  unfold absent, objects.get. intros H. destruct pk as [k|]; [|reflexivity].
  rewrite filter_none; [reflexivity|].
  intros r Hr Hk. apply (H r Hr). congruence.
Qed.

Lemma get_store (pk : option Z) (db : Store) : snd (objects.get pk db) = db.
Proof.
  unfold objects.get. destruct pk as [k|]; [|reflexivity].
  destruct (filter (has_id k) (table db)) as [|r [|r' l]]; reflexivity.
Qed.

Lemma get_inv (pk : option Z) (db db' : Store) (b : Book.t) :
  objects.get pk db = (inr b, db') ->
  exists k r, pk = Some k /\ identifies k r db /\ b = from_db r /\ db' = db.
Proof.
  unfold objects.get, identifies. destruct pk as [k|]; [|discriminate].
  destruct (filter (has_id k) (table db)) as [|r [|r' l]] eqn:E; try discriminate.
  intros H. inversion H; subst. exists k, r. repeat split; assumption.
Qed.

Lemma get_id_eq {K : AutoField} (i : option string) (db : Store) :
  objects.get_id i db =
  match i with
  | Some s =>
      match get_prep_value s with
      | inr k => objects.get (Some k) db
      | inl e => (inl e, db)
      end
  | None => (inl DoesNotExist, db)
  end.
Proof.
  unfold objects.get_id, objects.to_pk, bind. destruct i as [s|]; [|reflexivity].
  destruct (get_prep_value s); reflexivity.
Qed.

Lemma get_id_store {K : AutoField} (i : option string) (db : Store) :
  snd (objects.get_id i db) = db.
Proof.
  rewrite get_id_eq. destruct i as [s|]; [|reflexivity].
  destruct (get_prep_value s); [reflexivity | apply get_store].
Qed.

Lemma key_of_Some {K : AutoField} (i : option string) (k : Z) :
  key_of i = Some k <-> exists s, i = Some s /\ get_prep_value s = inr k.
Proof.
  unfold key_of. split.
  - destruct i as [s|]; [|discriminate].
    destruct (get_prep_value s) as [e|k'] eqn:E; [discriminate|].
    intros Hk. inversion Hk; subst k'. exists s. split; [reflexivity | exact E].
  - intros (s & -> & ->). reflexivity.
Qed.

Lemma get_id_key {K : AutoField} (i : option string) (k : Z) (db : Store) :
  key_of i = Some k -> objects.get_id i db = objects.get (Some k) db.
Proof.
  intros Hk. apply key_of_Some in Hk. destruct Hk as (s & -> & Hs).
  rewrite get_id_eq, Hs. reflexivity.
Qed.

Lemma lookup_error_key {K : AutoField} (i : option string) (k : Z) :
  key_of i = Some k -> lookup_error i = DoesNotExist.
Proof.
  intros Hk. apply key_of_Some in Hk. destruct Hk as (s & -> & Hs).
  unfold lookup_error. rewrite Hs. reflexivity.
Qed.

Lemma coercion_not_found {K : AutoField} (s : string) (e : exn) :
  get_prep_value s = inl e -> not_found e = false.
Proof.
  intros He. apply get_prep_value_raises in He. destruct He as [He _].
  destruct e; try reflexivity. exfalso. apply He. reflexivity.
Qed.

(** A [str] on which the coercion raises makes the lookup raise the same
    exception. *)
Lemma get_id_coercion_raises {K : AutoField} (s : string) (e : exn) (db : Store) :
  get_prep_value s = inl e -> objects.get_id (Some s) db = (inl e, db).
Proof. intros Hs. rewrite get_id_eq, Hs. reflexivity. Qed.

Lemma get_id_found {K : AutoField} (i : option string) (k : Z) (r : Row.t) (db : Store) :
  key_of i = Some k -> identifies k r db ->
  objects.get_id i db = (inr (from_db r), db).
Proof.
  intros Hi Hr. rewrite (get_id_key i k db Hi). apply get_found, Hr.
Qed.

Lemma get_id_absent {K : AutoField} (i : option string) (db : Store) :
  absent (key_of i) db -> objects.get_id i db = (inl (lookup_error i), db).
Proof.
  intros Habs. rewrite get_id_eq. unfold lookup_error, key_of in *.
  destruct i as [s|]; [|reflexivity].
  destruct (get_prep_value s) as [e|k]; [reflexivity | apply get_absent, Habs].
Qed.

Lemma get_id_inv {K : AutoField} (i : option string) (db db' : Store) (b : Book.t) :
  objects.get_id i db = (inr b, db') ->
  exists k r, key_of i = Some k /\ identifies k r db /\ b = from_db r /\ db' = db.
Proof.
  rewrite get_id_eq. destruct i as [s|]; [|discriminate]. unfold key_of.
  destruct (get_prep_value s) as [e|k]; [discriminate|].
  intros Hget. apply get_inv in Hget. destruct Hget as (k' & r & Hk & Hr & Hb & Hdb).
  inversion Hk; subst k'. exists k, r. repeat split; assumption.
Qed.

(** ** The in-place update of [save] *)

Lemma overwrite_id (k : Z) (b : Book.t) (r : Row.t) :
  Row.id (overwrite k b r) = Row.id r.
Proof.
  unfold overwrite. destruct (has_id k r) eqn:E; [|reflexivity].
  apply has_id_true in E. simpl. symmetry. exact E.
Qed.

Lemma overwrite_other (k : Z) (b : Book.t) (r : Row.t) :
  Row.id r <> k -> overwrite k b r = r.
Proof.
  intros H. unfold overwrite. apply has_id_false in H. rewrite H. reflexivity.
Qed.

Lemma overwrite_ids (k : Z) (b : Book.t) (l : list Row.t) :
  map Row.id (map (overwrite k b) l) = map Row.id l.
Proof.
  rewrite map_map. apply map_ext. intros r. apply overwrite_id.
Qed.

Lemma filter_overwrite (k k' : Z) (b : Book.t) (l : list Row.t) :
  filter (has_id k') (map (overwrite k b) l) =
  map (overwrite k b) (filter (has_id k') l).
Proof.
  induction l as [|a l IH]; simpl; [reflexivity|].
  assert (E : has_id k' (overwrite k b a) = has_id k' a)
    by (unfold has_id; rewrite overwrite_id; reflexivity).
  rewrite E. destruct (has_id k' a); simpl; rewrite IH; reflexivity.
Qed.

Lemma filter_overwrite_other (k k' : Z) (b : Book.t) (l : list Row.t) :
  k' <> k ->
  filter (has_id k') (map (overwrite k b) l) = filter (has_id k') l.
Proof.
  intros Hk. rewrite filter_overwrite.
  rewrite <- (map_id (filter (has_id k') l)) at 2.
  apply map_ext_in. intros r Hr. apply filter_In in Hr.
  destruct Hr as [_ Hr]. apply has_id_true in Hr.
  apply overwrite_other. congruence.
Qed.

Lemma nth_overwrite_other (k : Z) (b : Book.t) (l : list Row.t) (n : nat) (r : Row.t) :
  nth_error l n = Some r -> Row.id r <> k ->
  nth_error (map (overwrite k b) l) n = Some r.
Proof.
  intros Hn Hk. rewrite nth_error_map, Hn. simpl.
  rewrite overwrite_other by exact Hk. reflexivity.
Qed.

Lemma identifies_existsb (k : Z) (r : Row.t) (db : Store) :
  identifies k r db -> existsb (has_id k) (table db) = true.
Proof.
  intros H. apply identifies_In in H. destruct H as [Hin Hk].
  apply existsb_exists. exists r. split; [exact Hin | apply has_id_true, Hk].
Qed.

(** ** The mutations, case by case *)

Lemma create_eq (d : BookInput.t) (db : Store) :
  CreateBook.mutate d db =
  (inr (mkPayload (Some (updated (next_id db) d))),
   mkStore (table db ++ [to_row (next_id db) (updated (next_id db) d)])
     (next_id db + 1)).
Proof. reflexivity. Qed.

Lemma update_found {K : AutoField} (d : BookInput.t) (k : Z) (r : Row.t) (db : Store) :
  key_of (BookInput.id d) = Some k -> identifies k r db ->
  UpdateBook.mutate d db =
  (inr (mkPayload (Some (updated k d))),
   mkStore (map (overwrite k (updated k d)) (table db)) (next_id db)).
Proof.
  intros Hi Hr. unfold UpdateBook.mutate, bind.
  rewrite (get_id_found _ k r db Hi Hr). unfold truthy, save.
  destruct (identifies_In _ _ _ Hr) as [_ Hid]. subst k.
  cbn [UpdateBook.assign Book.id from_db].
  rewrite (identifies_existsb _ _ _ Hr). reflexivity.
Qed.

Lemma update_raises {K : AutoField} (d : BookInput.t) (e : exn) (db : Store) :
  outcome (objects.get_id (BookInput.id d)) db = inl e ->
  UpdateBook.mutate d db = (inl e, db).
Proof.
  unfold outcome, UpdateBook.mutate, bind. intros H.
  pose proof (get_id_store (BookInput.id d) db) as Hs.
  destruct (objects.get_id (BookInput.id d) db) as [[e'|b] db'];
    simpl in H, Hs; [|discriminate].
  congruence.
Qed.

Lemma update_inv {K : AutoField} (d : BookInput.t) (p : Payload) (db db' : Store) :
  UpdateBook.mutate d db = (inr p, db') ->
  exists k r,
    key_of (BookInput.id d) = Some k /\ identifies k r db /\
    p = mkPayload (Some (updated k d)) /\
    db' = mkStore (map (overwrite k (updated k d)) (table db)) (next_id db).
Proof.
  intros H.
  destruct (objects.get_id (BookInput.id d) db) as [[e|b] db0] eqn:E.
  - rewrite (update_raises d e db) in H by (unfold outcome; rewrite E; reflexivity).
    discriminate.
  - apply get_id_inv in E. destruct E as (k & r & Hk & Hr & _ & _).
    rewrite (update_found d k r db Hk Hr) in H. inversion H; subst.
    exists k, r. repeat split; assumption.
Qed.

Lemma delete_found {K : AutoField} (i : option string) (k : Z) (r : Row.t) (db : Store) :
  key_of i = Some k -> identifies k r db ->
  DeleteBook.mutate i db =
  (inr None,
   mkStore (filter (fun r => negb (has_id k r)) (table db)) (next_id db)).
Proof.
  intros Hi Hr. unfold DeleteBook.mutate, bind.
  rewrite (get_id_found _ k r db Hi Hr). unfold delete.
  destruct (identifies_In _ _ _ Hr) as [_ Hid]. subst k.
  reflexivity.
Qed.

Lemma delete_raises {K : AutoField} (i : option string) (e : exn) (db : Store) :
  outcome (objects.get_id i) db = inl e ->
  DeleteBook.mutate i db = (inl e, db).
Proof.
  unfold outcome, DeleteBook.mutate, bind. intros H.
  pose proof (get_id_store i db) as Hs.
  destruct (objects.get_id i db) as [[e'|b] db']; simpl in H, Hs; [|discriminate].
  congruence.
Qed.

Lemma delete_inv {K : AutoField} (i : option string) (p : option Payload) (db db' : Store) :
  DeleteBook.mutate i db = (inr p, db') ->
  exists k r,
    key_of i = Some k /\ identifies k r db /\ p = None /\
    db' = mkStore (filter (fun r => negb (has_id k r)) (table db)) (next_id db).
Proof.
  intros H.
  destruct (objects.get_id i db) as [[e|b] db0] eqn:E.
  - rewrite (delete_raises i e db) in H by (unfold outcome; rewrite E; reflexivity).
    discriminate.
  - apply get_id_inv in E. destruct E as (k & r & Hk & Hr & _ & _).
    rewrite (delete_found i k r db Hk Hr) in H. inversion H; subst.
    exists k, r. repeat split; assumption.
Qed.

(** A mutation that raises leaves the store as it found it, whatever the
    exception. *)
Lemma update_raise_store {K : AutoField} (d : BookInput.t) (e : exn) (db : Store) :
  outcome (UpdateBook.mutate d) db = inl e ->
  store_after (UpdateBook.mutate d) db = db.
Proof.
  unfold outcome, store_after. intros H.
  destruct (UpdateBook.mutate d db) as [[e'|p] db'] eqn:E; simpl in *; [|discriminate].
  destruct (objects.get_id (BookInput.id d) db) as [[e0|b] db0] eqn:E0.
  - rewrite (update_raises d e0 db) in E by (unfold outcome; rewrite E0; reflexivity).
    congruence.
  - apply get_id_inv in E0. destruct E0 as (k & r & Hk & Hr & _ & _).
    rewrite (update_found d k r db Hk Hr) in E. discriminate.
Qed.

Lemma delete_raise_store {K : AutoField} (i : option string) (e : exn) (db : Store) :
  outcome (DeleteBook.mutate i) db = inl e ->
  store_after (DeleteBook.mutate i) db = db.
Proof.
  unfold outcome, store_after. intros H.
  destruct (DeleteBook.mutate i db) as [[e'|p] db'] eqn:E; simpl in *; [|discriminate].
  destruct (objects.get_id i db) as [[e0|b] db0] eqn:E0.
  - rewrite (delete_raises i e0 db) in E by (unfold outcome; rewrite E0; reflexivity).
    congruence.
  - apply get_id_inv in E0. destruct E0 as (k & r & Hk & Hr & _ & _).
    rewrite (delete_found i k r db Hk Hr) in E. discriminate.
Qed.

(** ** The storage invariant is kept *)

Lemma wf_empty : wf empty_store.
Proof. split; [apply NoDup_nil | apply Forall_nil]. Qed.

Lemma wf_fresh (db : Store) (r : Row.t) :
  wf db -> In r (table db) -> Row.id r <> next_id db.
Proof.
  intros [_ Hlt] Hin. rewrite Forall_forall in Hlt.
  specialize (Hlt r Hin). lia.
Qed.

(** Dropping rows keeps the keys of the remaining ones distinct. *)
Lemma keys_distinct_after_filter (keep : Row.t -> bool) :
  forall rows : list Row.t,
    NoDup (map Row.id rows) -> NoDup (map Row.id (filter keep rows)).
Proof.
  intros rows. induction rows as [|a rows IH]; intros Hnd; [exact Hnd|].
  apply NoDup_cons_iff in Hnd. destruct Hnd as [Hfresh Hnd].
  cbn [filter]. destruct (keep a); [|exact (IH Hnd)].
  cbn [map]. apply NoDup_cons; [|exact (IH Hnd)].
  intros Hin. apply Hfresh.
  apply in_map_iff in Hin. destruct Hin as (r & Hid & Hr).
  apply filter_In in Hr. rewrite <- Hid. apply in_map, Hr.
Qed.

Lemma wf_create (d : BookInput.t) (db : Store) :
  wf db -> wf (store_after (CreateBook.mutate d) db).
Proof.
  intros Hwf. unfold store_after. rewrite create_eq. cbn [snd].
  pose proof Hwf as [Hnd Hlt]. split; cbn [table next_id].
  - rewrite map_app. apply NoDup_app; [exact Hnd | |].
    + simpl. constructor; [intros [] | apply NoDup_nil].
    + intros k Hk [Hk' | []]. simpl in Hk'. subst k.
      apply in_map_iff in Hk. destruct Hk as (r & Hr & Hin).
      apply (wf_fresh db r Hwf Hin Hr).
  - apply Forall_app. split.
    + apply (Forall_impl _ (P := fun r => Row.id r < next_id db)); [|exact Hlt].
      intros r Hr. lia.
    + constructor; [simpl; lia | apply Forall_nil].
Qed.

Lemma wf_update {K : AutoField} (d : BookInput.t) (db : Store) :
  wf db -> wf (store_after (UpdateBook.mutate d) db).
Proof.
  intros Hwf. unfold store_after.
  destruct (UpdateBook.mutate d db) as [[e|p] db'] eqn:E.
  - pose proof (update_raise_store d e db) as H. unfold outcome, store_after in H.
    rewrite E in H. simpl in *. rewrite H by reflexivity. exact Hwf.
  - apply update_inv in E. destruct E as (k & r & _ & _ & _ & ->).
    destruct Hwf as [Hnd Hlt]. split; cbn [snd table next_id].
    + rewrite overwrite_ids. exact Hnd.
    + rewrite Forall_forall in *. intros r' Hr'. apply in_map_iff in Hr'.
      destruct Hr' as (r0 & <- & Hr0). rewrite overwrite_id. apply Hlt, Hr0.
Qed.

Lemma wf_delete {K : AutoField} (i : option string) (db : Store) :
  wf db -> wf (store_after (DeleteBook.mutate i) db).
Proof.
  intros Hwf. unfold store_after.
  destruct (DeleteBook.mutate i db) as [[e|p] db'] eqn:E.
  - pose proof (delete_raise_store i e db) as H. unfold outcome, store_after in H.
    rewrite E in H. simpl in *. rewrite H by reflexivity. exact Hwf.
  - apply delete_inv in E. destruct E as (k & r & _ & _ & _ & ->).
    destruct Hwf as [Hnd Hlt]. split; cbn [snd table next_id].
    + apply keys_distinct_after_filter, Hnd.
    + rewrite Forall_forall in *. intros r' Hr'. apply filter_In in Hr'.
      apply Hlt, Hr'.
Qed.

(** Every store the schema can bring about meets the storage invariant. *)
Lemma reachable_wf {K : AutoField} (db : Store) : reachable db -> wf db.
Proof.
  induction 1 as [|q db _ IH]; [apply wf_empty|].
  destruct q; simpl; [apply wf_create | apply wf_update | apply wf_delete]; exact IH.
Qed.

(** ** What the queries compute *)

Lemma query_book_eq (book_id : option Z) (db : Store) :
  query_book book_id db =
  match objects.get book_id db with
  | (inl e, db') => (inl e, db')
  | (inr b, db') => (inr (RObject b), db')
  end.
Proof.
  unfold query_book, Query.resolve_book, Query.book, bind.
  destruct (objects.get book_id db) as [[e|b] db']; reflexivity.
Qed.

Lemma resolve_book_eq (book_id : option Z) (db : Store) :
  Query.resolve_book book_id db =
  match objects.get book_id db with
  | (inl e, db') => (inl e, db')
  | (inr b, db') => (inr (VBook b), db')
  end.
Proof.
  unfold Query.resolve_book, bind.
  destruct (objects.get book_id db) as [[e|b] db']; reflexivity.
Qed.

Lemma opt_eqb_Z (x y : option Z) : opt_eqb Z.eqb x y = true <-> x = y.
Proof.
  destruct x as [a|], y as [b|]; simpl; split; intros H;
    try discriminate; try reflexivity.
  - apply Z.eqb_eq in H. congruence.
  - inversion H. apply Z.eqb_refl.
Qed.

(** The resolver of [review] hands back the collection of exactly the stored
    records whose review is the argument, in storage order; it never
    raises and does not touch the store. *)
Lemma resolve_review_exact (book_review : option Z) (db : Store) :
  exists l,
    Query.resolve_review book_review db = (inr (VQuerySet l), db) /\
    (forall b, In b l <->
       exists r, In r (table db) /\ b = from_db r /\ Row.review r = book_review) /\
    ((forall r, In r (table db) -> Row.review r <> book_review) -> l = []).
Proof.
  eexists. split; [reflexivity|]. split.
  - intros b. rewrite in_map_iff. split.
    + intros (r & Hb & Hr). apply filter_In in Hr. destruct Hr as [Hin Hrev].
      exists r. repeat split; [exact Hin | symmetry; exact Hb | apply opt_eqb_Z, Hrev].
    + intros (r & Hin & Hb & Hrev). exists r. split; [symmetry; exact Hb|].
      apply filter_In. split; [exact Hin | apply opt_eqb_Z, Hrev].
  - intros Hno.
    assert (E : filter (fun r => opt_eqb Z.eqb (Row.review r) book_review) (table db) = []).
    { induction (table db) as [|a l IH]; simpl; [reflexivity|].
      destruct (opt_eqb Z.eqb (Row.review a) book_review) eqn:Ea.
      - apply opt_eqb_Z in Ea. exfalso. apply (Hno a); [left; reflexivity | exact Ea].
      - apply IH. intros r Hr. apply Hno. right. exact Hr. }
    rewrite E. reflexivity.
Qed.

(** The [review] field is declared with the object type, so the executor
    rejects the collection its resolver hands back: the query raises on
    every store and for every argument. *)
Lemma query_review_raises (book_review : option Z) (db : Store) :
  query_review book_review db = (inl IncompatibleInstance, db).
Proof. reflexivity. Qed.

(** The sibling field [all_books] is declared as a list and answers with the
    collection of all the stored records. *)
Lemma query_all_books_eq (db : Store) :
  query_all_books db = (inr (RList (map from_db (table db))), db).
Proof. reflexivity. Qed.

(** ** The update mutation *)

(** C1. When the [id] of the input identifies a stored record, the update
    mutation returns a payload whose book keeps that id and carries the
    title, author, year published and review of the input, whatever they
    are; the record is persisted: looking the id up again, or querying
    [book] with it, yields that same book. *)
Theorem UpdateBook_overwrites_every_field {K : AutoField}
  (d : BookInput.t) (k : Z) (r : Row.t) (db : Store) :
  key_of (BookInput.id d) = Some k ->
  identifies k r db ->
  exists b,
    outcome (UpdateBook.mutate d) db = inr (mkPayload (Some b)) /\
    Book.id b = Some k /\
    Book.title b = BookInput.title d /\
    Book.author b = BookInput.author d /\
    Book.year_published b = BookInput.year_published d /\
    Book.review b = BookInput.review d /\
    outcome (objects.get_id (BookInput.id d))
      (store_after (UpdateBook.mutate d) db) = inr b /\
    outcome (query_book (Some k))
      (store_after (UpdateBook.mutate d) db) = inr (RObject b).
Proof.
  intros Hk Hr. exists (updated k d). unfold outcome, store_after.
  rewrite (update_found d k r db Hk Hr). cbn [fst snd].
  repeat (split; [reflexivity|]).
  set (db' := mkStore _ _).
  assert (Hr' : identifies k (to_row k (updated k d)) db').
  { unfold identifies, db'. cbn [table]. rewrite filter_overwrite.
    unfold identifies in Hr. rewrite Hr. simpl. unfold overwrite.
    destruct (identifies_In _ _ _ Hr) as [_ Hid].
    apply has_id_true in Hid. rewrite Hid. reflexivity. }
  split.
  - rewrite (get_id_found _ k _ db' Hk Hr'). reflexivity.
  - rewrite query_book_eq, (get_found k _ db' Hr'). reflexivity.
Qed.

Lemma UpdateBook_overwrites_every_field_witness :
  exists b,
    outcome (UpdateBook.mutate (K := strict_keys) book_A2) store3 =
      inr (mkPayload (Some b)) /\
    Book.id b = Some 1 /\
    Book.title b = Some "A2"%string /\
    Book.author b = Some "B"%string /\
    Book.year_published b = Some "2020"%string /\
    Book.review b = Some 5 /\
    outcome (objects.get_id (K := strict_keys) (Some "1"%string))
      (store_after (UpdateBook.mutate (K := strict_keys) book_A2) store3) = inr b /\
    outcome (query_book (Some 1))
      (store_after (UpdateBook.mutate (K := strict_keys) book_A2) store3) =
      inr (RObject b).
Proof.
  apply (UpdateBook_overwrites_every_field (K := strict_keys) book_A2 1 row1 store3);
    reflexivity.
Defined.

(** C2, as the code has it.  No call of the update mutation returns a
    payload with a null book.  When the [id] of the input matches no stored
    record the lookup itself raises, and the mutation raises the same
    exception and leaves the store alone.  The exception is [DoesNotExist]
    when the id is null or is coerced to a key; when the coercion of the id
    raises it is the exception of the coercion, which is not of the
    not-found class, and for a plain string that is not a number is
    [ValueError]. *)
Theorem UpdateBook_null_branch_unreachable {K : AutoField}
  (d : BookInput.t) (db : Store) :
  (forall p, outcome (UpdateBook.mutate d) db = inr p -> book p <> None) /\
  (absent (key_of (BookInput.id d)) db ->
   exists e,
     outcome (objects.get_id (BookInput.id d)) db = inl e /\
     outcome (UpdateBook.mutate d) db = inl e /\
     store_after (UpdateBook.mutate d) db = db /\
     (BookInput.id d = None \/ (exists k, key_of (BookInput.id d) = Some k) ->
      e = DoesNotExist) /\
     (forall s e', BookInput.id d = Some s -> get_prep_value s = inl e' ->
        e = e' /\ not_found e = false) /\
     (forall s, BookInput.id d = Some s -> PyInt.int s = Some (inl ValueError) ->
        e = ValueError)).
Proof.
  split.
  - unfold outcome. intros p Hp.
    destruct (UpdateBook.mutate d db) as [res db'] eqn:E. simpl in Hp. subst res.
    apply update_inv in E. destruct E as (k & r & _ & _ & -> & _).
    discriminate.
  - intros Habs. exists (lookup_error (BookInput.id d)).
    pose proof (get_id_absent _ db Habs) as Hget.
    assert (Hout : outcome (objects.get_id (BookInput.id d)) db =
                   inl (lookup_error (BookInput.id d)))
      by (unfold outcome; rewrite Hget; reflexivity).
    pose proof (update_raises d _ db Hout) as Hmut.
    split; [exact Hout|].
    unfold outcome, store_after. rewrite Hmut. cbn [fst snd].
    split; [reflexivity|]. split; [reflexivity|].
    assert (Hcoerce : forall s e', BookInput.id d = Some s ->
                        get_prep_value s = inl e' ->
                        lookup_error (BookInput.id d) = e').
    { intros s e' Hs He. unfold lookup_error. rewrite Hs, He. reflexivity. }
    split; [|split].
    + intros [Hnone | (k & Hk)].
      * rewrite Hnone. reflexivity.
      * apply (lookup_error_key _ k Hk).
    + intros s e' Hs He. rewrite (Hcoerce s e' Hs He).
      split; [reflexivity | apply (coercion_not_found s e' He)].
    + intros s Hs Hplain. apply (Hcoerce s ValueError Hs).
      apply get_prep_value_plain, Hplain.
Qed.

Lemma UpdateBook_null_branch_unreachable_witness :
  outcome (UpdateBook.mutate (K := strict_keys) book_A2) store3 <>
    inr (mkPayload None) /\
  exists e,
    outcome (objects.get_id (K := strict_keys) (Some "7"%string)) store3 = inl e /\
    outcome (UpdateBook.mutate (K := strict_keys)
               (BookInput.set_id (Some "7"%string) book_A2)) store3 = inl e /\
    store_after (UpdateBook.mutate (K := strict_keys)
                   (BookInput.set_id (Some "7"%string) book_A2)) store3 = store3 /\
    e = DoesNotExist.
Proof.
  split.
  - intros Hnull.
    exact (proj1 (UpdateBook_null_branch_unreachable (K := strict_keys) book_A2 store3)
             (mkPayload None) Hnull eq_refl).
  - assert (Habs : absent (key_of (K := strict_keys) (Some "7"%string)) store3).
    { intros r Hr. simpl in Hr.
      destruct Hr as [<- | [<- | [<- | []]]]; vm_compute; discriminate. }
    destruct (proj2 (UpdateBook_null_branch_unreachable (K := strict_keys)
                       (BookInput.set_id (Some "7"%string) book_A2) store3) Habs)
      as (e & Hget & Hmut & Hstore & Hnf & _).
    exists e. repeat (split; [assumption|]).
    apply Hnf. right. exists 7. reflexivity.
Defined.

(** C2, as stated, fails: the input whose id is the string [abc] matches no
    record of the empty store, which has none; [int] raises [ValueError] on
    that string, so whatever the key column does elsewhere the lookup and
    the mutation raise [ValueError], which is not of the not-found class. *)
Lemma UpdateBook_lookup_error_not_always_NotFound :
  table empty_store = [] /\
  PyInt.int "abc" = Some (inl ValueError) /\
  (forall K : AutoField,
     outcome (objects.get_id (BookInput.id book_abc)) empty_store = inl ValueError /\
     outcome (UpdateBook.mutate book_abc) empty_store = inl ValueError) /\
  not_found ValueError = false.
Proof.
  split; [reflexivity|]. split; [reflexivity|]. split; [|reflexivity].
  intros K.
  assert (Hget : objects.get_id (BookInput.id book_abc) empty_store =
                 (inl ValueError, empty_store)).
  { apply get_id_coercion_raises. apply get_prep_value_plain. reflexivity. }
  assert (Hout : outcome (objects.get_id (BookInput.id book_abc)) empty_store =
                 inl ValueError)
    by (unfold outcome; rewrite Hget; reflexivity).
  split; [exact Hout|].
  unfold outcome. rewrite (update_raises book_abc ValueError empty_store Hout).
  reflexivity.
Qed.

(** ** The delete mutation *)

Lemma absent_after_delete (k : Z) (l : list Row.t) (n : Z) :
  absent (Some k) (mkStore (filter (fun r => negb (has_id k r)) l) n).
Proof.
  intros r Hr Hk. cbn [table] in Hr. apply filter_In in Hr.
  destruct Hr as [_ Hr]. inversion Hk as [Hk']. symmetry in Hk'.
  apply has_id_true in Hk'. rewrite Hk' in Hr. discriminate.
Qed.

(** C3, as the code has it.  A delete mutation called without an id raises
    [TypeError] and touches nothing.  One whose id is null, or is coerced
    to a key that no stored record has, raises [DoesNotExist]; one whose id
    the coercion rejects raises the exception of the coercion, which is not
    of the not-found class, and for a plain string that is not a number is
    [ValueError].  When the id
    identifies a stored record the mutation succeeds and the record is gone
    for good: afterwards the [book] query and the lookup for that id raise
    [DoesNotExist], and [allBooks] answers a list of books that all have an
    id, none of them that one, and that does not hold the record. *)
Theorem DeleteBook_removes_or_raises {K : AutoField} (i : option string) (db : Store) :
  Mutation.delete_book Omitted db = (inl TypeError, db) /\
  Mutation.delete_book (Passed i) db = DeleteBook.mutate i db /\
  (i = None -> outcome (DeleteBook.mutate i) db = inl DoesNotExist) /\
  (forall k, key_of i = Some k -> absent (Some k) db ->
     outcome (DeleteBook.mutate i) db = inl DoesNotExist) /\
  (forall s e, i = Some s -> get_prep_value s = inl e ->
     outcome (DeleteBook.mutate i) db = inl e /\ not_found e = false) /\
  (forall s, i = Some s -> PyInt.int s = Some (inl ValueError) ->
     outcome (DeleteBook.mutate i) db = inl ValueError) /\
  (forall k r, key_of i = Some k -> identifies k r db ->
     outcome (DeleteBook.mutate i) db = inr None /\
     outcome (query_book (Some k)) (store_after (DeleteBook.mutate i) db) =
       inl DoesNotExist /\
     outcome (objects.get_id i) (store_after (DeleteBook.mutate i) db) =
       inl DoesNotExist /\
     exists l,
       outcome query_all_books (store_after (DeleteBook.mutate i) db) =
         inr (RList l) /\
       ~ In (from_db r) l /\
       (forall b, In b l -> exists k', Book.id b = Some k' /\ k' <> k)).
Proof.
  assert (Hfail : forall e, outcome (objects.get_id i) db = inl e ->
                            outcome (DeleteBook.mutate i) db = inl e).
  { intros e He. unfold outcome. rewrite (delete_raises i e db He). reflexivity. }
  assert (Hcoerce : forall s e, i = Some s -> get_prep_value s = inl e ->
                      outcome (DeleteBook.mutate i) db = inl e).
  { intros s e -> Hs. apply Hfail. unfold outcome.
    rewrite (get_id_coercion_raises s e db Hs). reflexivity. }
  split; [reflexivity|]. split; [reflexivity|].
  split; [|split; [|split; [|split]]].
  - intros ->. apply Hfail. reflexivity.
  - intros k Hk Habs. apply Hfail. unfold outcome.
    rewrite get_id_absent by (rewrite Hk; exact Habs).
    rewrite (lookup_error_key i k Hk). reflexivity.
  - intros s e Hi He.
    split; [apply (Hcoerce s e Hi He) | apply (coercion_not_found s e He)].
  - intros s Hi Hplain. apply (Hcoerce s ValueError Hi).
    apply get_prep_value_plain, Hplain.
  - intros k r Hk Hr. unfold outcome, store_after.
    rewrite (delete_found i k r db Hk Hr). cbn [fst snd].
    split; [reflexivity|]. split; [|split].
    + rewrite query_book_eq, get_absent by apply absent_after_delete. reflexivity.
    + rewrite get_id_absent by (rewrite Hk; apply absent_after_delete).
      rewrite (lookup_error_key i k Hk). reflexivity.
    + rewrite query_all_books_eq. cbn [fst table].
      assert (Hall : forall b,
                 In b (map from_db (filter (fun r => negb (has_id k r)) (table db))) ->
                 exists k', Book.id b = Some k' /\ k' <> k).
      { intros b Hb. apply in_map_iff in Hb. destruct Hb as (r' & <- & Hr').
        apply filter_In in Hr'. destruct Hr' as [_ Hr'].
        exists (Row.id r'). split; [reflexivity|]. intros Hk'.
        apply has_id_true in Hk'. rewrite Hk' in Hr'. discriminate. }
      eexists. split; [reflexivity|]. split; [|exact Hall].
      intros Hin. destruct (Hall _ Hin) as (k' & Hid & Hne). simpl in Hid.
      destruct (identifies_In _ _ _ Hr) as [_ Hrk]. congruence.
Qed.

Lemma DeleteBook_removes_or_raises_witness :
  outcome (DeleteBook.mutate (K := strict_keys) (Some "7"%string)) store3 =
    inl DoesNotExist /\
  outcome (DeleteBook.mutate (K := strict_keys) (Some "x7"%string)) store3 =
    inl ValueError /\
  outcome (DeleteBook.mutate (K := strict_keys) (Some "2"%string)) store3 =
    inr None /\
  outcome (query_book (Some 2))
    (store_after (DeleteBook.mutate (K := strict_keys) (Some "2"%string)) store3) =
    inl DoesNotExist.
Proof.
  pose (at_7 := DeleteBook_removes_or_raises (K := strict_keys) (Some "7"%string) store3).
  pose (at_x7 := DeleteBook_removes_or_raises (K := strict_keys) (Some "x7"%string) store3).
  pose (at_2 := DeleteBook_removes_or_raises (K := strict_keys) (Some "2"%string) store3).
  destruct at_7 as (_ & _ & _ & H7 & _).
  destruct at_x7 as (_ & _ & _ & _ & _ & Hx7 & _).
  destruct at_2 as (_ & _ & _ & _ & _ & _ & H2).
  split; [|split; [|split]].
  - apply (H7 7); [reflexivity|].
    intros r Hr. simpl in Hr.
    destruct Hr as [<- | [<- | [<- | []]]]; vm_compute; discriminate.
  - apply (Hx7 "x7"%string); reflexivity.
  - apply (H2 2 row2); reflexivity.
  - apply (H2 2 row2); reflexivity.
Defined.

(** C3, as stated, fails: no record of the empty store has the id [abc];
    [int] raises [ValueError] on that string, so whatever the key column
    does elsewhere the delete mutation raises [ValueError], which is not of
    the not-found class. *)
Lemma DeleteBook_error_not_always_NotFound :
  table empty_store = [] /\
  PyInt.int "abc" = Some (inl ValueError) /\
  (forall K : AutoField,
     outcome (DeleteBook.mutate (Some "abc"%string)) empty_store = inl ValueError) /\
  not_found ValueError = false.
Proof.
  split; [reflexivity|]. split; [reflexivity|]. split; [|reflexivity].
  intros K. unfold outcome.
  rewrite (delete_raises (Some "abc"%string) ValueError empty_store); [reflexivity|].
  unfold outcome. rewrite (get_id_coercion_raises "abc" ValueError); [reflexivity|].
  apply get_prep_value_plain. reflexivity.
Qed.

(** C4. A delete mutation that succeeds returns no payload at all: the
    [book] field the client reads is null, whichever record was deleted. *)
Theorem DeleteBook_returns_no_book {K : AutoField}
  (i : option string) (db : Store) (p : option Payload) :
  outcome (DeleteBook.mutate i) db = inr p ->
  p = None /\ book_of p = None.
Proof.
  unfold outcome. intros H.
  destruct (DeleteBook.mutate i db) as [res db'] eqn:E. simpl in H. subst res.
  apply delete_inv in E. destruct E as (k & r & _ & _ & -> & _).
  split; reflexivity.
Qed.

Lemma DeleteBook_returns_no_book_witness :
  outcome (DeleteBook.mutate (K := strict_keys) (Some "2"%string)) store3 = inr None /\
  book_of None = None.
Proof.
  split; [reflexivity|].
  apply (DeleteBook_returns_no_book (K := strict_keys) (Some "2"%string) store3 None).
  reflexivity.
Defined.

(** ** The queries *)

(** C5. When exactly one stored record has the id asked for, the resolver of
    [book] returns a book with that id and with the title, author, year
    published and review of that record, and the query answers it; when no
    stored record has it, the storage lookup raises [DoesNotExist] and the
    resolver and the query raise that same exception; the store is not
    touched. *)
Theorem resolve_book_returns_or_DoesNotExist (book_id : option Z) (db : Store) :
  (forall k r, book_id = Some k -> identifies k r db ->
     exists b,
       Query.resolve_book book_id db = (inr (VBook b), db) /\
       query_book book_id db = (inr (RObject b), db) /\
       Book.id b = Some k /\
       Book.title b = Row.title r /\
       Book.author b = Row.author r /\
       Book.year_published b = Row.year_published r /\
       Book.review b = Row.review r) /\
  (absent book_id db ->
     objects.get book_id db = (inl DoesNotExist, db) /\
     Query.resolve_book book_id db = (inl DoesNotExist, db) /\
     query_book book_id db = (inl DoesNotExist, db)).
Proof.
  split.
  - intros k r -> Hr. exists (from_db r).
    rewrite resolve_book_eq, query_book_eq, (get_found k r db Hr).
    destruct (identifies_In k r db Hr) as [_ Hid].
    split; [reflexivity|]. split; [reflexivity|].
    split; [simpl; rewrite Hid; reflexivity|].
    repeat split.
  - intros Habs.
    rewrite resolve_book_eq, query_book_eq, (get_absent book_id db Habs).
    repeat split; reflexivity.
Qed.

Lemma resolve_book_returns_or_DoesNotExist_witness :
  (exists b,
     Query.resolve_book (Some 2) store3 = (inr (VBook b), store3) /\
     query_book (Some 2) store3 = (inr (RObject b), store3) /\
     Book.id b = Some 2 /\
     Book.title b = Some "C"%string /\
     Book.author b = Some "D"%string /\
     Book.year_published b = Some "1999"%string /\
     Book.review b = Some 3) /\
  Query.resolve_book (Some 9) store3 = (inl DoesNotExist, store3).
Proof.
  split.
  - apply (proj1 (resolve_book_returns_or_DoesNotExist (Some 2) store3) 2 row2);
      reflexivity.
  - apply (proj2 (resolve_book_returns_or_DoesNotExist (Some 9) store3)).
    intros r Hr. simpl in Hr.
    destruct Hr as [<- | [<- | [<- | []]]]; vm_compute; discriminate.
Defined.

(** C6, on the code.  On the store of three books, two of them with review
    5, the resolver of [review] hands back the collection of those two
    records; but the field is declared [graphene.Field(BookType)], a single
    book, where its sibling [all_books] is declared as a list, so that the
    query does not answer the collection: the executor rejects it. *)
Theorem review_query_rejects_its_collection :
  outcome (Query.resolve_review (Some 5)) store3 =
    inr (VQuerySet [from_db row1; from_db row3]) /\
  Query.review = Field_BookType /\
  Query.all_books = List_BookType /\
  outcome (query_review (Some 5)) store3 = inl IncompatibleInstance /\
  outcome (query_review (Some 4)) store3 = inl IncompatibleInstance.
Proof. repeat split. Qed.

(** ** The create mutation *)

(** C7. The create mutation inserts one new row under the next value of the
    storage sequence and returns a payload whose book has that id, hence a
    non-null one, and the title, author, year published and review of the
    input; the [id] of the input plays no part. *)
Theorem CreateBook_assigns_id_and_copies_fields (d : BookInput.t) (db : Store) :
  (exists b,
     outcome (CreateBook.mutate d) db = inr (mkPayload (Some b)) /\
     Book.id b = Some (next_id db) /\
     Book.title b = BookInput.title d /\
     Book.author b = BookInput.author d /\
     Book.year_published b = BookInput.year_published d /\
     Book.review b = BookInput.review d /\
     table (store_after (CreateBook.mutate d) db) =
       table db ++ [to_row (next_id db) b] /\
     next_id (store_after (CreateBook.mutate d) db) = next_id db + 1) /\
  (forall i, CreateBook.mutate (BookInput.set_id i d) db = CreateBook.mutate d db).
Proof.
  split.
  - exists (updated (next_id db) d). unfold outcome, store_after.
    rewrite create_eq. repeat split.
  - intros i. rewrite !create_eq. reflexivity.
Qed.

(** C8. On a store that meets the storage invariant, the record a create
    mutation returns has an id, and querying [book] with that id right
    after returns that very record. *)
Theorem create_then_book_roundtrip (d : BookInput.t) (db : Store) :
  wf db ->
  exists b k,
    outcome (CreateBook.mutate d) db = inr (mkPayload (Some b)) /\
    Book.id b = Some k /\
    outcome (Query.resolve_book (Some k)) (store_after (CreateBook.mutate d) db) =
      inr (VBook b) /\
    outcome (query_book (Some k)) (store_after (CreateBook.mutate d) db) =
      inr (RObject b).
Proof.
  intros Hwf. exists (updated (next_id db) d), (next_id db).
  unfold outcome, store_after. rewrite create_eq. cbn [fst snd].
  split; [reflexivity|]. split; [reflexivity|].
  set (db' := mkStore _ _).
  assert (Hr : identifies (next_id db)
                 (to_row (next_id db) (updated (next_id db) d)) db').
  { unfold identifies, db'. cbn [table]. rewrite filter_app.
    rewrite filter_none by (intros r Hr; apply (wf_fresh db r Hwf Hr)).
    simpl. unfold has_id. simpl. rewrite Z.eqb_refl. reflexivity. }
  rewrite resolve_book_eq, query_book_eq, (get_found _ _ db' Hr).
  split; reflexivity.
Qed.

Lemma create_then_book_roundtrip_witness :
  exists b k,
    outcome (CreateBook.mutate book_A) store3 = inr (mkPayload (Some b)) /\
    Book.id b = Some k /\
    outcome (Query.resolve_book (Some k)) (store_after (CreateBook.mutate book_A) store3) =
      inr (VBook b) /\
    outcome (query_book (Some k)) (store_after (CreateBook.mutate book_A) store3) =
      inr (RObject b).
Proof.
  apply (create_then_book_roundtrip book_A store3).
  split.
  - simpl. repeat constructor; simpl; intuition discriminate.
  - simpl. repeat constructor; simpl; lia.
Defined.

(** ** Failure and frame *)

(** C9. An update or a delete mutation that raises [DoesNotExist] leaves
    the store exactly as it was: the table and the sequence are those of
    before the call. *)
Theorem not_found_leaves_store_unchanged {K : AutoField} (db : Store) :
  (forall d e, outcome (UpdateBook.mutate d) db = inl e -> not_found e = true ->
     store_after (UpdateBook.mutate d) db = db) /\
  (forall i e, outcome (DeleteBook.mutate i) db = inl e -> not_found e = true ->
     store_after (DeleteBook.mutate i) db = db).
Proof.
  split.
  - intros d e He _. apply (update_raise_store d e db He).
  - intros i e He _. apply (delete_raise_store i e db He).
Qed.

Lemma not_found_leaves_store_unchanged_witness :
  store_after (UpdateBook.mutate (K := strict_keys)
                 (BookInput.set_id (Some "7"%string) book_A2)) store3 = store3 /\
  store_after (DeleteBook.mutate (K := strict_keys) (Some "7"%string)) store3 =
    store3.
Proof.
  split.
  - apply (proj1 (not_found_leaves_store_unchanged (K := strict_keys) store3)
             (BookInput.set_id (Some "7"%string) book_A2) DoesNotExist);
      reflexivity.
  - apply (proj2 (not_found_leaves_store_unchanged (K := strict_keys) store3)
             (Some "7"%string) DoesNotExist); reflexivity.
Defined.

(** C10. A successful update of the record of key [k] returns a book of id
    [k], keeps the id of every row, that one included, and the sequence,
    leaves every row of another id in its place and unchanged, and does not
    change what a lookup of another id answers.  A create mutation leaves
    every row that was there in its place and unchanged, adds one row, and
    on a store that meets the storage invariant every record that was
    there is still answered, unchanged, for its id. *)
Theorem mutations_leave_other_records {K : AutoField} (d : BookInput.t) (db : Store) :
  (forall p, outcome (UpdateBook.mutate d) db = inr p ->
     exists k b,
       key_of (BookInput.id d) = Some k /\
       book p = Some b /\ Book.id b = Some k /\
       map Row.id (table (store_after (UpdateBook.mutate d) db)) =
         map Row.id (table db) /\
       next_id (store_after (UpdateBook.mutate d) db) = next_id db /\
       (forall n r, nth_error (table db) n = Some r -> Row.id r <> k ->
          nth_error (table (store_after (UpdateBook.mutate d) db)) n = Some r) /\
       (forall k', k' <> k ->
          outcome (Query.resolve_book (Some k')) (store_after (UpdateBook.mutate d) db) =
          outcome (Query.resolve_book (Some k')) db)) /\
  (forall n r, nth_error (table db) n = Some r ->
     nth_error (table (store_after (CreateBook.mutate d) db)) n = Some r) /\
  List.length (table (store_after (CreateBook.mutate d) db)) =
    S (List.length (table db)) /\
  (wf db -> forall r, In r (table db) ->
     outcome (Query.resolve_book (Some (Row.id r))) (store_after (CreateBook.mutate d) db) =
       inr (VBook (from_db r))).
Proof.
  split; [|split; [|split]].
  - unfold outcome, store_after. intros p Hp.
    destruct (UpdateBook.mutate d db) as [res db'] eqn:E. simpl in Hp. subst res.
    apply update_inv in E. destruct E as (k & r & Hk & Hr & -> & ->).
    exists k, (updated k d). cbn [snd table next_id book].
    split; [exact Hk|]. split; [reflexivity|]. split; [reflexivity|].
    split; [apply overwrite_ids|]. split; [reflexivity|]. split.
    + intros n r' Hn Hid. apply nth_overwrite_other; assumption.
    + intros k' Hk'. rewrite !resolve_book_eq. unfold objects.get. cbn [table].
      rewrite filter_overwrite_other by exact Hk'.
      destruct (filter (has_id k') (table db)) as [|a [|a' l]]; reflexivity.
  - intros n r Hn. unfold store_after. rewrite create_eq. cbn [snd table].
    rewrite nth_error_app1; [exact Hn|].
    apply nth_error_Some. rewrite Hn. discriminate.
  - unfold store_after. rewrite create_eq. cbn [snd table].
    rewrite length_app. simpl. apply Nat.add_1_r.
  - intros Hwf r Hin. unfold outcome, store_after. rewrite create_eq. cbn [snd].
    set (db' := mkStore _ _).
    assert (Hr : identifies (Row.id r) r db').
    { unfold identifies, db'. cbn [table]. rewrite filter_app.
      rewrite (wf_identifies db r Hwf Hin). simpl. unfold has_id. simpl.
      pose proof (wf_fresh db r Hwf Hin) as Hne.
      apply not_eq_sym in Hne. apply Z.eqb_neq in Hne. rewrite Hne. reflexivity. }
    rewrite resolve_book_eq, (get_found _ _ db' Hr). reflexivity.
Qed.

Lemma mutations_leave_other_records_witness :
  nth_error (table (store_after (UpdateBook.mutate (K := strict_keys) book_A2)
                      store3)) 1%nat =
    Some row2 /\
  outcome (Query.resolve_book (Some 2)) (store_after (CreateBook.mutate book_A) store3) =
    inr (VBook (from_db row2)).
Proof.
  split.
  - destruct (proj1 (mutations_leave_other_records (K := strict_keys) book_A2 store3)
                (mkPayload (Some (updated 1 book_A2))) eq_refl)
      as (k & b & Hk & _ & _ & _ & _ & Hnth & _).
    apply (Hnth 1%nat row2); [reflexivity|].
    vm_compute in Hk. inversion Hk; subst k. vm_compute. discriminate.
  - refine (proj2 (proj2 (proj2 (mutations_leave_other_records (K := strict_keys)
                                   book_A store3)))
              _ row2 _).
    + split.
      * simpl. repeat constructor; simpl; intuition discriminate.
      * simpl. repeat constructor; simpl; lia.
    + right. left. reflexivity.
Defined.

(** * Further properties of the schema *)

(** ** Auxiliary facts on the table *)

Lemma overwrite_twice (k : Z) (b1 b2 : Book.t) (r : Row.t) :
  overwrite k b2 (overwrite k b1 r) = overwrite k b2 r.
Proof.
  unfold overwrite at 2 3. destruct (has_id k r) eqn:E.
  - unfold overwrite, has_id. simpl. rewrite Z.eqb_refl. reflexivity.
  - unfold overwrite. rewrite E. reflexivity.
Qed.

Lemma identifies_overwrite (k : Z) (b : Book.t) (r : Row.t) (db : Store) (n : Z) :
  identifies k r db ->
  identifies k (to_row k b) (mkStore (map (overwrite k b) (table db)) n).
Proof.
  unfold identifies. intros Hr. cbn [table]. rewrite filter_overwrite, Hr.
  assert (Hid : has_id k r = true).
  { apply has_id_true. apply (identifies_In k r db). exact Hr. }
  simpl. unfold overwrite. rewrite Hid. reflexivity.
Qed.

Lemma filter_other_after_removal (k k' : Z) (l : list Row.t) :
  k' <> k ->
  filter (has_id k') (filter (fun r => negb (has_id k r)) l) =
  filter (has_id k') l.
Proof.
  intros Hk. induction l as [|a l IH]; [reflexivity|]. simpl.
  destruct (has_id k a) eqn:Ea; simpl.
  - apply has_id_true in Ea.
    assert (Ea' : has_id k' a = false) by (apply has_id_false; congruence).
    rewrite Ea'. exact IH.
  - destruct (has_id k' a); rewrite IH; reflexivity.
Qed.

Lemma removal_of_absent (k : Z) (l : list Row.t) :
  (forall r, In r l -> Row.id r <> k) ->
  filter (fun r => negb (has_id k r)) l = l.
Proof.
  intros H. induction l as [|a l IH]; [reflexivity|]. simpl.
  assert (Ea : has_id k a = false) by (apply has_id_false, H; left; reflexivity).
  rewrite Ea. simpl. f_equal. apply IH. intros r Hr. apply H. right. exact Hr.
Qed.

Lemma wf_below (db : Store) (k : Z) (r : Row.t) :
  wf db -> identifies k r db -> k < next_id db.
Proof.
  intros [_ Hlt] Hr. apply identifies_In in Hr. destruct Hr as [Hin <-].
  rewrite Forall_forall in Hlt. apply Hlt, Hin.
Qed.

(** ** Listing and fetching agree *)

(** X1. On a store that meets the storage invariant, [resolve_all_books]
    returns, without touching the store, a collection that holds exactly
    the books [resolve_book] returns for some id; the [allBooks] query
    answers that collection as a list. *)
Theorem all_books_lists_what_book_finds (db : Store) :
  wf db ->
  exists l,
    Query.resolve_all_books db = (inr (VQuerySet l), db) /\
    query_all_books db = (inr (RList l), db) /\
    forall b,
      In b l <->
      exists k, Query.resolve_book (Some k) db = (inr (VBook b), db).
Proof.
  intros Hwf. exists (map from_db (table db)).
  split; [reflexivity|]. split; [reflexivity|].
  intros b. split.
  - intros Hb. apply in_map_iff in Hb. destruct Hb as (r & <- & Hr).
    exists (Row.id r).
    rewrite resolve_book_eq, (get_found _ r db (wf_identifies db r Hwf Hr)).
    reflexivity.
  - intros (k & Hk). rewrite resolve_book_eq in Hk.
    destruct (objects.get (Some k) db) as [[e|b'] db'] eqn:E; [discriminate|].
    inversion Hk; subst b' db'. apply get_inv in E.
    destruct E as (k' & r & _ & Hr & -> & _).
    apply in_map. apply (identifies_In k' r db Hr).
Qed.

Lemma all_books_lists_what_book_finds_witness :
  exists l,
    Query.resolve_all_books store3 = (inr (VQuerySet l), store3) /\
    query_all_books store3 = (inr (RList l), store3) /\
    forall b,
      In b l <->
      exists k, Query.resolve_book (Some k) store3 = (inr (VBook b), store3).
Proof.
  apply (all_books_lists_what_book_finds store3).
  split.
  - simpl. repeat constructor; simpl; intuition discriminate.
  - simpl. repeat constructor; simpl; lia.
Defined.

(** ** The stores the mutations bring about *)

(** X2. In every store reached from the empty table by create, update and
    delete mutations, failed ones included, no two rows share an id, every
    id is at least 1 and below the next value of the sequence. *)
Theorem reachable_store_keys {K : AutoField} (db : Store) :
  reachable db ->
  NoDup (map Row.id (table db)) /\
  Forall (fun r => 1 <= Row.id r < next_id db) (table db).
Proof.
  intros Hreach.
  assert (Hlow : Forall (fun r => 1 <= Row.id r) (table db) /\ 1 <= next_id db).
  { induction Hreach as [|q db _ [IHt IHn]]; [split; [constructor | simpl; lia]|].
    destruct q as [d|d|i]; unfold perform, store_after.
    - rewrite create_eq. cbn [snd table next_id]. split; [|lia].
      apply Forall_app. split; [exact IHt|].
      constructor; [simpl; lia | constructor].
    - destruct (UpdateBook.mutate d db) as [[e|p] db'] eqn:E.
      + pose proof (update_raise_store d e db) as H.
        unfold outcome, store_after in H. rewrite E in H.
        cbn [fst snd] in *. rewrite H by reflexivity. split; assumption.
      + apply update_inv in E. destruct E as (k & r & _ & _ & _ & ->).
        cbn [snd table next_id]. split; [|exact IHn].
        rewrite Forall_forall in *. intros r' Hr'. apply in_map_iff in Hr'.
        destruct Hr' as (r0 & <- & Hr0). rewrite overwrite_id. apply IHt, Hr0.
    - destruct (DeleteBook.mutate i db) as [[e|p] db'] eqn:E.
      + pose proof (delete_raise_store i e db) as H.
        unfold outcome, store_after in H. rewrite E in H.
        cbn [fst snd] in *. rewrite H by reflexivity. split; assumption.
      + apply delete_inv in E. destruct E as (k & r & _ & _ & _ & ->).
        cbn [snd table next_id]. split; [|exact IHn].
        rewrite Forall_forall in *. intros r' Hr'. apply filter_In in Hr'.
        apply IHt, Hr'. }
  destruct (reachable_wf db Hreach) as [Hnd Hlt]. split; [exact Hnd|].
  destruct Hlow as [Hlow _]. rewrite Forall_forall in *.
  intros r Hr. split; [apply Hlow, Hr | apply Hlt, Hr].
Qed.

Lemma reachable_store_keys_witness :
  NoDup (map Row.id
           (table (perform (K := strict_keys) (Delete (Some "1"%string))
                     (perform (K := strict_keys) (Create book_A)
                        (perform (K := strict_keys) (Create book_A2)
                           empty_store))))) /\
  Forall (fun r => 1 <= Row.id r < 3)
    (table (perform (K := strict_keys) (Delete (Some "1"%string))
              (perform (K := strict_keys) (Create book_A)
                 (perform (K := strict_keys) (Create book_A2) empty_store)))).
Proof.
  apply (reachable_store_keys (K := strict_keys)
           (perform (K := strict_keys) (Delete (Some "1"%string))
              (perform (K := strict_keys) (Create book_A)
                 (perform (K := strict_keys) (Create book_A2) empty_store)))).
  apply reach_step, reach_step, reach_step, reach_empty.
Defined.

(** ** Mutations in sequence *)

(** X3. Of two updates of the same stored record in a row, the second one
    wins: it returns and leaves the store exactly as if the first had not
    run.  In particular an update run twice leaves what it leaves when run
    once. *)
Theorem UpdateBook_last_write_wins {K : AutoField}
  (d1 d2 : BookInput.t) (k : Z) (r : Row.t) (db : Store) :
  key_of (BookInput.id d1) = Some k ->
  key_of (BookInput.id d2) = Some k ->
  identifies k r db ->
  UpdateBook.mutate d2 (store_after (UpdateBook.mutate d1) db) =
  UpdateBook.mutate d2 db.
Proof.
  intros H1 H2 Hr. unfold store_after.
  rewrite (update_found d1 k r db H1 Hr). cbn [snd].
  rewrite (update_found d2 k _ _ H2
             (identifies_overwrite k (updated k d1) r db (next_id db) Hr)).
  rewrite (update_found d2 k r db H2 Hr). cbn [table next_id].
  rewrite map_map. f_equal. f_equal. apply map_ext. intros a.
  apply overwrite_twice.
Qed.

Lemma UpdateBook_last_write_wins_witness :
  UpdateBook.mutate (K := strict_keys) book_A2
    (store_after (UpdateBook.mutate (K := strict_keys)
                    (BookInput.set_id (Some " 1"%string) book_A))
       store3) =
  UpdateBook.mutate (K := strict_keys) book_A2 store3.
Proof.
  apply (UpdateBook_last_write_wins (K := strict_keys)
           (BookInput.set_id (Some " 1"%string) book_A) book_A2 1 row1 store3);
    reflexivity.
Defined.

(** X4. Once a delete mutation has removed the record of an id, a second
    delete of that id and an update of that id both raise [DoesNotExist]
    and leave the store as the first delete left it. *)
Theorem DeleteBook_then_mutations_fail {K : AutoField}
  (i : option string) (d : BookInput.t) (k : Z) (r : Row.t) (db : Store) :
  key_of i = Some k ->
  key_of (BookInput.id d) = Some k ->
  identifies k r db ->
  DeleteBook.mutate i (store_after (DeleteBook.mutate i) db) =
    (inl DoesNotExist, store_after (DeleteBook.mutate i) db) /\
  UpdateBook.mutate d (store_after (DeleteBook.mutate i) db) =
    (inl DoesNotExist, store_after (DeleteBook.mutate i) db).
Proof.
  intros Hi Hd Hr. unfold store_after.
  rewrite (delete_found i k r db Hi Hr). cbn [snd].
  set (db' := mkStore _ _).
  assert (Habs : absent (Some k) db') by apply absent_after_delete.
  assert (Hlook : forall j, key_of j = Some k ->
                    outcome (objects.get_id j) db' = inl DoesNotExist).
  { intros j Hj. unfold outcome.
    rewrite get_id_absent by (rewrite Hj; exact Habs).
    rewrite (lookup_error_key j k Hj). reflexivity. }
  split.
  - apply delete_raises, Hlook, Hi.
  - apply update_raises, Hlook, Hd.
Qed.

Lemma DeleteBook_then_mutations_fail_witness :
  DeleteBook.mutate (K := strict_keys) (Some "1"%string)
    (store_after (DeleteBook.mutate (K := strict_keys) (Some "1"%string)) store3) =
    (inl DoesNotExist,
     store_after (DeleteBook.mutate (K := strict_keys) (Some "1"%string)) store3) /\
  UpdateBook.mutate (K := strict_keys) book_A2
    (store_after (DeleteBook.mutate (K := strict_keys) (Some "1"%string)) store3) =
    (inl DoesNotExist,
     store_after (DeleteBook.mutate (K := strict_keys) (Some "1"%string)) store3).
Proof.
  apply (DeleteBook_then_mutations_fail (K := strict_keys)
           (Some "1"%string) book_A2 1 row1 store3);
    reflexivity.
Defined.

(** X5. A delete mutation that succeeds removes the rows of the id it was
    given and nothing else: the rows left are those of the other ids, the
    sequence is kept, the [book] resolver answers every other id as before,
    and exactly one row is gone. *)
Theorem DeleteBook_leaves_other_records {K : AutoField}
  (i : option string) (db : Store) (p : option Payload) :
  outcome (DeleteBook.mutate i) db = inr p ->
  exists k,
    key_of i = Some k /\
    next_id (store_after (DeleteBook.mutate i) db) = next_id db /\
    (forall r, In r (table (store_after (DeleteBook.mutate i) db)) <->
               In r (table db) /\ Row.id r <> k) /\
    (forall k', k' <> k ->
       Query.resolve_book (Some k') (store_after (DeleteBook.mutate i) db) =
       match Query.resolve_book (Some k') db with
       | (res, _) => (res, store_after (DeleteBook.mutate i) db)
       end) /\
    S (List.length (table (store_after (DeleteBook.mutate i) db))) =
      List.length (table db).
Proof.
  unfold outcome, store_after. intros Hp.
  destruct (DeleteBook.mutate i db) as [res db'] eqn:E. simpl in Hp. subst res.
  apply delete_inv in E. destruct E as (k & r & Hk & Hr & _ & ->).
  exists k. cbn [snd table next_id].
  split; [exact Hk|]. split; [reflexivity|]. split; [|split].
  - intros r'. rewrite filter_In. split; intros [Hin Hid]; (split; [exact Hin|]).
    + intros Hk'. apply has_id_true in Hk'. rewrite Hk' in Hid. discriminate.
    + apply has_id_false in Hid. rewrite Hid. reflexivity.
  - intros k' Hk'. rewrite !resolve_book_eq. unfold objects.get. cbn [table].
    rewrite filter_other_after_removal by exact Hk'.
    destruct (filter (has_id k') (table db)) as [|a [|a' l]]; reflexivity.
  - pose proof (filter_length (has_id k) (table db)) as Hlen.
    unfold identifies in Hr. rewrite Hr in Hlen. simpl in Hlen. exact Hlen.
Qed.

Lemma DeleteBook_leaves_other_records_witness :
  exists k,
    key_of (K := strict_keys) (Some "2"%string) = Some k /\
    next_id (store_after (DeleteBook.mutate (K := strict_keys) (Some "2"%string))
               store3) =
      next_id store3 /\
    (forall r,
       In r (table (store_after (DeleteBook.mutate (K := strict_keys)
                                   (Some "2"%string)) store3)) <->
       In r (table store3) /\ Row.id r <> k) /\
    (forall k', k' <> k ->
       Query.resolve_book (Some k')
         (store_after (DeleteBook.mutate (K := strict_keys) (Some "2"%string))
            store3) =
       match Query.resolve_book (Some k') store3 with
       | (res, _) =>
           (res,
            store_after (DeleteBook.mutate (K := strict_keys) (Some "2"%string))
              store3)
       end) /\
    S (List.length
         (table (store_after (DeleteBook.mutate (K := strict_keys)
                                (Some "2"%string)) store3))) =
      List.length (table store3).
Proof.
  apply (DeleteBook_leaves_other_records (K := strict_keys)
           (Some "2"%string) store3 None).
  reflexivity.
Defined.

(** X6. On a store that meets the storage invariant, deleting the book a
    create mutation has just inserted gives the table of before the create
    back; the sequence stays advanced, so the id is spent. *)
Theorem create_then_delete_restores_table {K : AutoField}
  (d : BookInput.t) (i : option string) (db : Store) :
  wf db ->
  key_of i = Some (next_id db) ->
  DeleteBook.mutate i (store_after (CreateBook.mutate d) db) =
    (inr None, mkStore (table db) (next_id db + 1)).
Proof.
  intros Hwf Hi. unfold store_after. rewrite create_eq. cbn [snd].
  set (new := to_row (next_id db) (updated (next_id db) d)).
  assert (Hold : forall r, In r (table db) -> Row.id r <> next_id db)
    by (intros r Hr; apply (wf_fresh db r Hwf Hr)).
  assert (Hnew : has_id (next_id db) new = true)
    by (unfold has_id, new; simpl; apply Z.eqb_refl).
  rewrite (delete_found i (next_id db) new).
  - cbn [table next_id]. rewrite filter_app, removal_of_absent by exact Hold.
    simpl. rewrite Hnew. simpl. rewrite app_nil_r. reflexivity.
  - exact Hi.
  - unfold identifies. cbn [table]. rewrite filter_app, filter_none by exact Hold.
    simpl. rewrite Hnew. reflexivity.
Qed.

Lemma create_then_delete_restores_table_witness :
  DeleteBook.mutate (K := strict_keys) (Some "4"%string)
    (store_after (CreateBook.mutate book_A) store3) =
    (inr None, mkStore (table store3) (next_id store3 + 1)).
Proof.
  apply (create_then_delete_restores_table (K := strict_keys)
           book_A (Some "4"%string) store3);
    [|reflexivity].
  split.
  - simpl. repeat constructor; simpl; intuition discriminate.
  - simpl. repeat constructor; simpl; lia.
Defined.

(** X8. Two create mutations in a row return books of different ids, and on
    a store that meets the storage invariant neither id is that of a
    record stored before. *)
Theorem CreateBook_ids_are_fresh (d1 d2 : BookInput.t) (db : Store) :
  exists b1 b2 k1 k2,
    outcome (CreateBook.mutate d1) db = inr (mkPayload (Some b1)) /\
    outcome (CreateBook.mutate d2) (store_after (CreateBook.mutate d1) db) =
      inr (mkPayload (Some b2)) /\
    Book.id b1 = Some k1 /\ Book.id b2 = Some k2 /\ k1 <> k2 /\
    (wf db -> forall r, In r (table db) -> Row.id r <> k1 /\ Row.id r <> k2).
Proof.
  exists (updated (next_id db) d1), (updated (next_id db + 1) d2),
         (next_id db), (next_id db + 1).
  unfold outcome, store_after. rewrite !create_eq. cbn [fst snd next_id].
  repeat (split; [reflexivity|]). split; [lia|].
  intros [_ Hlt] r Hr. rewrite Forall_forall in Hlt. specialize (Hlt r Hr). lia.
Qed.

Lemma CreateBook_ids_are_fresh_witness :
  exists b1 b2 k1 k2,
    outcome (CreateBook.mutate book_A) store3 = inr (mkPayload (Some b1)) /\
    outcome (CreateBook.mutate book_A2) (store_after (CreateBook.mutate book_A) store3) =
      inr (mkPayload (Some b2)) /\
    Book.id b1 = Some k1 /\ Book.id b2 = Some k2 /\ k1 <> k2 /\
    (forall r, In r (table store3) -> Row.id r <> k1 /\ Row.id r <> k2).
Proof.
  destruct (CreateBook_ids_are_fresh book_A book_A2 store3)
    as (b1 & b2 & k1 & k2 & H1 & H2 & H3 & H4 & H5 & H6).
  exists b1, b2, k1, k2. repeat (split; [assumption|]).
  apply H6. split.
  - simpl. repeat constructor; simpl; intuition discriminate.
  - simpl. repeat constructor; simpl; lia.
Defined.

(** ** The review resolver among the others *)

Lemma from_db_review (r : Row.t) : Book.review (from_db r) = Row.review r.
Proof. reflexivity. Qed.

(** X9. [resolve_review] never raises and does not touch the store; the
    collection it returns holds exactly the books of the [resolve_all_books]
    collection whose review is the argument (a null argument selecting the
    books without a review), and is empty when there is none. *)
Theorem resolve_review_selects_from_all_books (book_review : option Z) (db : Store) :
  exists l la,
    Query.resolve_review book_review db = (inr (VQuerySet l), db) /\
    Query.resolve_all_books db = (inr (VQuerySet la), db) /\
    (forall b, In b l <-> In b la /\ Book.review b = book_review) /\
    ((forall b, In b la -> Book.review b <> book_review) <-> l = []).
Proof.
  exists (map from_db
            (filter (fun r => opt_eqb Z.eqb (Row.review r) book_review) (table db))),
         (map from_db (table db)).
  split; [reflexivity|]. split; [reflexivity|].
  assert (Hmem : forall b,
             In b (map from_db
                     (filter (fun r => opt_eqb Z.eqb (Row.review r) book_review)
                        (table db))) <->
             In b (map from_db (table db)) /\ Book.review b = book_review).
  { intros b. rewrite !in_map_iff. split.
    - intros (r & <- & Hr). apply filter_In in Hr. destruct Hr as [Hin Hrev].
      split; [exists r; split; [reflexivity | exact Hin]|].
      rewrite from_db_review. apply opt_eqb_Z, Hrev.
    - intros [(r & <- & Hin) Hrev]. exists r. split; [reflexivity|].
      apply filter_In. split; [exact Hin|].
      apply opt_eqb_Z. rewrite <- from_db_review. exact Hrev. }
  split; [exact Hmem|]. split.
  - intros Hno.
    destruct (map from_db
                (filter (fun r => opt_eqb Z.eqb (Row.review r) book_review)
                   (table db))) as [|b l] eqn:E; [reflexivity|].
    exfalso. destruct (proj1 (Hmem b) (or_introl eq_refl)) as [Hin Hrev].
    exact (Hno b Hin Hrev).
  - intros Hnil b Hin Hrev. rewrite Hnil in Hmem.
    exact (proj2 (Hmem b) (conj Hin Hrev)).
Qed.

(** X10. A create mutation adds the new book to the [resolve_review]
    collection of its own review value and changes no other one: after
    the create, the collection for a value holds the books it held before,
    and the new book when its review is that value. *)
Theorem resolve_review_after_create
  (d : BookInput.t) (book_review : option Z) (db : Store) :
  exists l l' b,
    Query.resolve_review book_review db = (inr (VQuerySet l), db) /\
    outcome (CreateBook.mutate d) db = inr (mkPayload (Some b)) /\
    outcome (Query.resolve_review book_review) (store_after (CreateBook.mutate d) db) =
      inr (VQuerySet l') /\
    (forall x, In x l' <->
               In x l \/ (x = b /\ BookInput.review d = book_review)).
Proof.
  eexists _, _, _. split; [reflexivity|].
  unfold outcome, store_after. rewrite create_eq. cbn [fst snd].
  split; [reflexivity|]. split; [reflexivity|].
  intros x. cbn [table]. rewrite filter_app, map_app, in_app_iff.
  apply or_iff_compat_l. simpl.
  destruct (opt_eqb Z.eqb (BookInput.review d) book_review) eqn:E; simpl.
  - apply opt_eqb_Z in E. split.
    + intros [<- | []]. split; [reflexivity | exact E].
    + intros [-> _]. left. reflexivity.
  - split; [intros []|]. intros [_ Hrev].
    apply opt_eqb_Z in Hrev. congruence.
Qed.

(** X11. An update mutation moves the record between the [resolve_review]
    collections as its new review says: after a successful update of the
    record of key [k], the collection for a value holds the updated book
    exactly when the review of the input is that value, and a book of
    another id is in it exactly when it was before. *)
Theorem resolve_review_after_update {K : AutoField}
  (d : BookInput.t) (book_review : option Z) (k : Z) (r : Row.t) (db : Store) :
  key_of (BookInput.id d) = Some k ->
  identifies k r db ->
  exists l l' b,
    Query.resolve_review book_review db = (inr (VQuerySet l), db) /\
    outcome (UpdateBook.mutate d) db = inr (mkPayload (Some b)) /\
    outcome (Query.resolve_review book_review) (store_after (UpdateBook.mutate d) db) =
      inr (VQuerySet l') /\
    (In b l' <-> BookInput.review d = book_review) /\
    (forall x, Book.id x <> Some k -> (In x l' <-> In x l)).
Proof.
  intros Hk Hr. eexists _, _, _. split; [reflexivity|].
  unfold outcome, store_after. rewrite (update_found d k r db Hk Hr).
  cbn [fst snd]. split; [reflexivity|]. split; [reflexivity|].
  cbn [table]. destruct (identifies_In k r db Hr) as [Hin Hid].
  split.
  - rewrite in_map_iff. split.
    + intros (r' & Hb & Hr'). apply filter_In in Hr'. destruct Hr' as [_ Hrev].
      apply opt_eqb_Z in Hrev. rewrite <- from_db_review, Hb in Hrev. exact Hrev.
    + intros Hrev. exists (to_row k (updated k d)). split; [reflexivity|].
      apply filter_In. split; [|apply opt_eqb_Z; exact Hrev].
      apply in_map_iff. exists r. split; [|exact Hin].
      unfold overwrite. apply has_id_true in Hid. rewrite Hid. reflexivity.
  - intros x Hx. rewrite !in_map_iff. split.
    + intros (r' & <- & Hr'). apply filter_In in Hr'. destruct Hr' as [Hr' Hrev].
      apply in_map_iff in Hr'. destruct Hr' as (r0 & <- & Hr0).
      assert (Hne : Row.id r0 <> k).
      { intros E. apply Hx. simpl. rewrite overwrite_id, E. reflexivity. }
      rewrite overwrite_other in * by exact Hne.
      exists r0. split; [reflexivity|]. apply filter_In. split; assumption.
    + intros (r' & <- & Hr'). apply filter_In in Hr'. destruct Hr' as [Hr' Hrev].
      assert (Hne : Row.id r' <> k).
      { intros E. apply Hx. simpl. rewrite E. reflexivity. }
      exists r'. split; [reflexivity|]. apply filter_In. split; [|exact Hrev].
      apply in_map_iff. exists r'. split; [apply overwrite_other, Hne | exact Hr'].
Qed.

Lemma resolve_review_after_update_witness :
  exists l l' b,
    Query.resolve_review (Some 5) store3 = (inr (VQuerySet l), store3) /\
    outcome (UpdateBook.mutate (K := strict_keys) book_A2) store3 =
      inr (mkPayload (Some b)) /\
    outcome (Query.resolve_review (Some 5))
      (store_after (UpdateBook.mutate (K := strict_keys) book_A2) store3) =
      inr (VQuerySet l') /\
    (In b l' <-> BookInput.review book_A2 = Some 5) /\
    (forall x, Book.id x <> Some 1 -> (In x l' <-> In x l)).
Proof.
  apply (resolve_review_after_update (K := strict_keys)
           book_A2 (Some 5) 1 row1 store3); reflexivity.
Defined.

(** ** When the lookups succeed *)

(** X12. On a store that meets the storage invariant, the [book] resolver,
    the update mutation and the delete mutation succeed exactly when a
    stored record has the id asked for, and none of them ever raises
    [MultipleObjectsReturned]. *)
Theorem lookups_succeed_iff_stored {K : AutoField} (db : Store) :
  wf db ->
  (forall k,
     (exists v, outcome (Query.resolve_book (Some k)) db = inr v) <->
     (exists r, In r (table db) /\ Row.id r = k)) /\
  (forall d,
     (exists p, outcome (UpdateBook.mutate d) db = inr p) <->
     (exists r, In r (table db) /\ key_of (BookInput.id d) = Some (Row.id r))) /\
  (forall i,
     (exists p, outcome (DeleteBook.mutate i) db = inr p) <->
     (exists r, In r (table db) /\ key_of i = Some (Row.id r))) /\
  (forall book_id d i,
     outcome (Query.resolve_book book_id) db <> inl MultipleObjectsReturned /\
     outcome (UpdateBook.mutate d) db <> inl MultipleObjectsReturned /\
     outcome (DeleteBook.mutate i) db <> inl MultipleObjectsReturned).
Proof.
  intros Hwf.
  assert (Hget : forall pk, outcome (objects.get pk) db <> inl MultipleObjectsReturned).
  { intros [k|]; unfold outcome, objects.get; [|discriminate].
    destruct (filter (has_id k) (table db)) as [|a [|a' l]] eqn:E; try discriminate.
    exfalso.
    assert (Ha : In a (filter (has_id k) (table db))) by (rewrite E; left; reflexivity).
    apply filter_In in Ha. destruct Ha as [Ha Hka]. apply has_id_true in Hka.
    pose proof (wf_identifies db a Hwf Ha) as Hone. unfold identifies in Hone.
    rewrite Hka, E in Hone. discriminate. }
  assert (Hgid : forall j, outcome (objects.get_id j) db <> inl MultipleObjectsReturned).
  { intros j. unfold outcome. rewrite get_id_eq. destruct j as [s|]; [|discriminate].
    destruct (get_prep_value s) as [e|k] eqn:E; [|apply Hget].
    cbn [fst]. intros He. inversion He; subst e.
    apply get_prep_value_raises in E. destruct E as [_ E]. apply E. reflexivity. }
  split; [|split; [|split]].
  - intros k. split.
    + intros (v & Hv). unfold outcome in Hv. rewrite resolve_book_eq in Hv.
      destruct (objects.get (Some k) db) as [[e|b] db'] eqn:E; [discriminate|].
      apply get_inv in E. destruct E as (k' & r & Hk' & Hr & _ & _).
      inversion Hk'; subst k'. exists r. apply (identifies_In k r db Hr).
    + intros (r & Hin & <-). eexists. unfold outcome.
      rewrite resolve_book_eq, (get_found _ r db (wf_identifies db r Hwf Hin)).
      reflexivity.
  - intros d. split.
    + intros (p & Hp). unfold outcome in Hp.
      destruct (UpdateBook.mutate d db) as [res db'] eqn:E. simpl in Hp. subst res.
      apply update_inv in E. destruct E as (k & r & Hk & Hr & _ & _).
      destruct (identifies_In k r db Hr) as [Hin <-]. exists r. split; assumption.
    + intros (r & Hin & Hk). eexists. unfold outcome.
      rewrite (update_found d _ r db Hk (wf_identifies db r Hwf Hin)). reflexivity.
  - intros i. split.
    + intros (p & Hp). unfold outcome in Hp.
      destruct (DeleteBook.mutate i db) as [res db'] eqn:E. simpl in Hp. subst res.
      apply delete_inv in E. destruct E as (k & r & Hk & Hr & _ & _).
      destruct (identifies_In k r db Hr) as [Hin <-]. exists r. split; assumption.
    + intros (r & Hin & Hk). eexists. unfold outcome.
      rewrite (delete_found i _ r db Hk (wf_identifies db r Hwf Hin)). reflexivity.
  - intros book_id d i. split; [|split].
    + unfold outcome. rewrite resolve_book_eq. specialize (Hget book_id).
      unfold outcome in Hget.
      destruct (objects.get book_id db) as [[e|b] db']; simpl in *; congruence.
    + intros H.
      destruct (outcome (objects.get_id (BookInput.id d)) db) as [e|b] eqn:E.
      * unfold outcome in H. rewrite (update_raises d e db E) in H.
        simpl in H. inversion H; subst e. exact (Hgid _ E).
      * unfold outcome in E, H.
        destruct (objects.get_id (BookInput.id d) db) as [res db0] eqn:E0.
        simpl in E. subst res. apply get_id_inv in E0.
        destruct E0 as (k & r & Hk & Hr & _ & _).
        rewrite (update_found d k r db Hk Hr) in H. discriminate.
    + intros H.
      destruct (outcome (objects.get_id i) db) as [e|b] eqn:E.
      * unfold outcome in H. rewrite (delete_raises i e db E) in H.
        simpl in H. inversion H; subst e. exact (Hgid _ E).
      * unfold outcome in E, H.
        destruct (objects.get_id i db) as [res db0] eqn:E0.
        simpl in E. subst res. apply get_id_inv in E0.
        destruct E0 as (k & r & Hk & Hr & _ & _).
        rewrite (delete_found i k r db Hk Hr) in H. discriminate.
Qed.

Lemma lookups_succeed_iff_stored_witness :
  (exists p, outcome (UpdateBook.mutate (K := strict_keys) book_A2) store3 = inr p) /\
  outcome (DeleteBook.mutate (K := strict_keys) (Some "9"%string)) store3 <>
    inl MultipleObjectsReturned.
Proof.
  assert (Hwf : wf store3).
  { split.
    - simpl. repeat constructor; simpl; intuition discriminate.
    - simpl. repeat constructor; simpl; lia. }
  split.
  - apply (proj1 (proj2 (lookups_succeed_iff_stored (K := strict_keys) store3 Hwf))
             book_A2).
    exists row1. split; [left; reflexivity | reflexivity].
  - apply (proj2 (proj2 (proj2 (lookups_succeed_iff_stored (K := strict_keys)
                                   store3 Hwf)))
             None book_A2 (Some "9"%string)).
Defined.

(** ** The id a client is given, given back *)

Section Decimal.

Import PyInt.

Lemma digit_cases (d : Z) :
  0 <= d < 10 ->
  d = 0 \/ d = 1 \/ d = 2 \/ d = 3 \/ d = 4 \/ d = 5 \/ d = 6 \/ d = 7 \/
  d = 8 \/ d = 9.
Proof. lia. Qed.

Ltac each_digit d Hd :=
  destruct (digit_cases d Hd)
    as [-> | [-> | [-> | [-> | [-> | [-> | [-> | [-> | [-> | ->]]]]]]]]].

Lemma digit_of_char (d : Z) : 0 <= d < 10 -> digit_of (digit_char d) = Some d.
Proof. intros Hd. each_digit d Hd; reflexivity. Qed.

Lemma digit_char_kind (d : Z) :
  0 <= d < 10 ->
  is_ascii (digit_char d) = true /\
  is_space (digit_char d) = false /\
  Ascii.eqb (digit_char d) "_"%char = false /\
  literal [digit_char d] = digits 0 false [digit_char d] /\
  forall l, literal (digit_char d :: l) = digits 0 false (digit_char d :: l).
Proof. intros Hd. each_digit d Hd; repeat split. Qed.

(** Reading the digits written for [n] gives [n] back. *)
Lemma digits_to_digits (fuel : nat) :
  forall (n : Z) (rest : list ascii) (b : bool),
    0 <= n < 10 ^ Z.of_nat (S fuel) ->
    digits 0 b (to_digits (S fuel) n rest) = digits n true rest.
Proof.
  assert (Hstep : forall n rest b, 0 <= n ->
            digits 0 b (digit_char (n mod 10) :: rest) =
            digits (n mod 10) true rest).
  { intros n rest b Hn.
    assert (Hd : 0 <= n mod 10 < 10) by (apply Z.mod_pos_bound; lia).
    destruct (digit_char_kind _ Hd) as (_ & _ & Hu & _).
    cbn [digits]. rewrite Hu, (digit_of_char _ Hd). f_equal; lia. }
  induction fuel as [|fuel IH]; intros n rest b Hn.
  - cbn [to_digits]. change (10 ^ Z.of_nat 1) with 10 in Hn.
    assert (E : digit_char (n mod 10) :: rest =
                (if n <? 10 then digit_char (n mod 10) :: rest
                 else digit_char (n mod 10) :: rest))
      by (destruct (n <? 10); reflexivity).
    rewrite <- E, Hstep by lia. rewrite Z.mod_small by lia. reflexivity.
  - rewrite Nat2Z.inj_succ, Z.pow_succ_r in Hn by lia.
    change (to_digits (S (S fuel)) n rest) with
      (if n <? 10 then digit_char (n mod 10) :: rest
       else to_digits (S fuel) (n / 10) (digit_char (n mod 10) :: rest)).
    destruct (n <? 10) eqn:E.
    + apply Z.ltb_lt in E. rewrite Hstep by lia.
      rewrite Z.mod_small by lia. reflexivity.
    + apply Z.ltb_ge in E. rewrite IH.
      * assert (Hd : 0 <= n mod 10 < 10) by (apply Z.mod_pos_bound; lia).
        destruct (digit_char_kind _ Hd) as (_ & _ & Hu & _).
        cbn [digits]. rewrite Hu, (digit_of_char _ Hd). f_equal.
        pose proof (Z.div_mod n 10). lia.
      * split; [apply Z.div_pos; lia|].
        apply Z.div_lt_upper_bound; lia.
Qed.

(** What is written consists of decimal digits. *)
Lemma to_digits_chars (fuel : nat) :
  forall (n : Z) (rest : list ascii) (c : ascii),
    0 <= n -> In c (to_digits fuel n rest) ->
    In c rest \/ exists d, 0 <= d < 10 /\ c = digit_char d.
Proof.
  induction fuel as [|fuel IH]; intros n rest c Hn Hc; [left; exact Hc|].
  cbn [to_digits] in Hc.
  assert (Hd : 0 <= n mod 10 < 10) by (apply Z.mod_pos_bound; lia).
  destruct (n <? 10).
  - destruct Hc as [<- | Hc]; [right; exists (n mod 10); split; [exact Hd | reflexivity]|].
    left. exact Hc.
  - apply IH in Hc; [|apply Z.div_pos; lia].
    destruct Hc as [[<- | Hc] | Hc].
    + right. exists (n mod 10). split; [exact Hd | reflexivity].
    + left. exact Hc.
    + right. exact Hc.
Qed.

(** A number below [10 ^ m] is written with at most [m] digits. *)
Lemma to_digits_length (m : nat) :
  forall (fuel : nat) (n : Z) (rest : list ascii),
    0 <= n < 10 ^ Z.of_nat (S m) ->
    (List.length (to_digits fuel n rest) <= S m + List.length rest)%nat.
Proof.
  induction m as [|m IH]; intros fuel n rest Hn.
  - change (10 ^ Z.of_nat 1) with 10 in Hn.
    destruct fuel as [|fuel]; cbn [to_digits]; [simpl; lia|].
    assert (E : (n <? 10) = true) by (apply Z.ltb_lt; lia).
    rewrite E. simpl. lia.
  - rewrite Nat2Z.inj_succ, Z.pow_succ_r in Hn by lia.
    destruct fuel as [|fuel]; cbn [to_digits]; [simpl; lia|].
    destruct (n <? 10) eqn:E; [simpl; lia|].
    apply Z.ltb_ge in E.
    assert (Hq : 0 <= n / 10 < 10 ^ Z.of_nat (S m)).
    { split; [apply Z.div_pos; lia|]. apply Z.div_lt_upper_bound; lia. }
    pose proof (IH fuel (n / 10) (digit_char (n mod 10) :: rest) Hq) as Hlen.
    simpl in Hlen. simpl. lia.
Qed.

Lemma lstrip_no_space (l : list ascii) :
  (forall c, In c l -> is_space c = false) -> lstrip l = l.
Proof.
  destruct l as [|c l]; intros H; [reflexivity|].
  cbn [lstrip]. rewrite (H c) by (left; reflexivity). reflexivity.
Qed.

Lemma strip_no_space (l : list ascii) :
  (forall c, In c l -> is_space c = false) -> strip l = l.
Proof.
  intros H. unfold strip. rewrite (lstrip_no_space l H).
  rewrite lstrip_no_space; [apply rev_involutive|].
  intros c Hc. apply H. apply in_rev. exact Hc.
Qed.

Lemma log2_fuel (n : Z) : 0 <= n -> n < 10 ^ Z.of_nat (S (Z.to_nat (Z.log2 n))).
Proof.
  intros Hn. rewrite Nat2Z.inj_succ, Z2Nat.id by apply Z.log2_nonneg.
  destruct (Z.eq_dec n 0) as [-> | Hne]; [reflexivity|].
  assert (H2 : n < 2 ^ Z.succ (Z.log2 n)) by (apply Z.log2_spec; lia).
  assert (H10 : 2 ^ Z.succ (Z.log2 n) <= 10 ^ Z.succ (Z.log2 n)).
  { apply Z.pow_le_mono_l. lia. }
  lia.
Qed.

(** [int (str k)] is [k], for a key that is not negative and has at most 18
    digits. *)
Lemma int_str (k : Z) : 0 <= k < 10 ^ 18 -> int (str k) = Some (inr k).
Proof.
  intros Hk. unfold int, str.
  rewrite list_ascii_of_string_of_list_ascii.
  assert (E : (k <? 0) = false) by (apply Z.ltb_ge; lia).
  rewrite E, Z.abs_eq by lia.
  set (fuel := Z.to_nat (Z.log2 k)).
  set (l := to_digits (S fuel) k []).
  assert (Hchars : forall c, In c l -> exists d, 0 <= d < 10 /\ c = digit_char d).
  { intros c Hc. apply to_digits_chars in Hc; [|lia].
    destruct Hc as [[] | Hc]. exact Hc. }
  assert (Hplain : plain l = true).
  { unfold plain. apply andb_true_intro. split.
    - apply forallb_forall. intros c Hc.
      destruct (Hchars c Hc) as (d & Hd & ->). apply (digit_char_kind d Hd).
    - apply Nat.leb_le.
      pose proof (filter_length_le is_digit l) as Hf.
      pose proof (to_digits_length 17 (S fuel) k []) as Hlen.
      fold l in Hlen. simpl List.length in Hlen.
      assert (Hb : 0 <= k < 10 ^ Z.of_nat 18) by (change (Z.of_nat 18) with 18; lia).
      specialize (Hlen Hb). lia. }
  rewrite Hplain.
  rewrite strip_no_space.
  - assert (Hlit : literal l = digits 0 false l).
    { destruct l as [|c l'] eqn:El; [reflexivity|].
      destruct (Hchars c (or_introl eq_refl)) as (d & Hd & ->).
      apply (digit_char_kind d Hd). }
    rewrite Hlit. unfold l.
    rewrite digits_to_digits by (split; [lia | apply log2_fuel; lia]).
    reflexivity.
  - intros c Hc. destruct (Hchars c Hc) as (d & Hd & ->).
    apply (digit_char_kind d Hd).
Qed.

Lemma stray_kind (c : ascii) :
  stray c ->
  is_space c = false /\ digit_of c = None /\
  c <> "_"%char /\ c <> "+"%char /\ c <> "-"%char.
Proof.
  intros (Hs & H32 & Hd & Hp & Hm & Hu).
  split; [|split; [|split; [|split]]].
  - unfold is_space.
    destruct (Z.leb_spec 9 (code c)), (Z.leb_spec (code c) 13),
      (Z.eqb_spec (code c) 32); simpl; try reflexivity; lia.
  - unfold digit_of.
    destruct (Z.leb_spec 48 (code c)), (Z.leb_spec (code c) 57);
      simpl; try reflexivity; lia.
  - intros ->. apply Hu. reflexivity.
  - intros ->. apply Hp. reflexivity.
  - intros ->. apply Hm. reflexivity.
Qed.

Lemma lstrip_keeps (c : ascii) (l : list ascii) :
  is_space c = false -> In c l -> In c (lstrip l).
Proof.
  intros Hc. induction l as [|a l IH]; intros Hin; [exact Hin|].
  cbn [lstrip]. destruct (is_space a) eqn:Ea; [|exact Hin].
  destruct Hin as [-> | Hin]; [congruence | apply IH, Hin].
Qed.

Lemma strip_keeps (c : ascii) (l : list ascii) :
  is_space c = false -> In c l -> In c (strip l).
Proof.
  intros Hc Hin. unfold strip. apply -> in_rev.
  apply lstrip_keeps; [exact Hc|]. apply -> in_rev.
  apply lstrip_keeps; assumption.
Qed.

Lemma digits_stray (c : ascii) (l : list ascii) :
  digit_of c = None -> c <> "_"%char -> In c l ->
  forall acc b, digits acc b l = None.
Proof.
  intros Hd Hu. induction l as [|a l IH]; intros Hin acc b; [destruct Hin|].
  cbn [digits]. destruct (Ascii.eqb_spec a "_"%char) as [-> | Ha].
  - destruct b; [|reflexivity]. apply IH.
    destruct Hin as [E | Hin]; [congruence | exact Hin].
  - destruct (digit_of a) as [d|] eqn:Ea; [|reflexivity].
    apply IH. destruct Hin as [E | Hin]; [congruence | exact Hin].
Qed.

Lemma literal_unsigned (a : ascii) (l : list ascii) :
  a <> "+"%char -> a <> "-"%char -> literal (a :: l) = digits 0 false (a :: l).
Proof.
  intros Hp Hm.
  destruct a as [[] [] [] [] [] [] [] []]; try reflexivity; congruence.
Qed.

(** A plain string with a character that is neither a digit, a sign, an
    underscore nor one of the six white space characters is no literal:
    [int] raises [ValueError]. *)
Lemma int_stray (s : string) (c : ascii) :
  plain (list_ascii_of_string s) = true ->
  In c (list_ascii_of_string s) -> stray c ->
  int s = Some (inl ValueError).
Proof.
  intros Hplain Hin Hc. unfold int. rewrite Hplain.
  destruct (stray_kind c Hc) as (Hs & Hd & Hu & Hp & Hm).
  pose proof (strip_keeps c _ Hs Hin) as Hin'.
  assert (Hlit : literal (strip (list_ascii_of_string s)) = None).
  { destruct (strip (list_ascii_of_string s)) as [|a l]; [destruct Hin'|].
    destruct (Ascii.eqb_spec a "+"%char) as [-> | Hap].
    - destruct Hin' as [E | Hin']; [congruence|].
      apply (digits_stray c l Hd Hu Hin').
    - destruct (Ascii.eqb_spec a "-"%char) as [-> | Ham].
      + destruct Hin' as [E | Hin']; [congruence|].
        cbn [literal]. rewrite (digits_stray c l Hd Hu Hin'). reflexivity.
      + rewrite (literal_unsigned a l Hap Ham).
        apply (digits_stray c (a :: l) Hd Hu Hin'). }
  rewrite Hlit. reflexivity.
Qed.

(** What [int] answers on a few strings: white space around a literal is
    skipped, the control characters that are not white space are not, a
    string beyond ASCII is left open. *)
Lemma int_samples :
  int "12" = Some (inr 12) /\
  int (String "009" (String "032" (String "-" (String "1" (String "_"
        (String "0" (String "010" EmptyString))))))) = Some (inr (-10)) /\
  int (String "031" "2") = Some (inl ValueError) /\
  int (String "028" "2") = Some (inl ValueError) /\
  int "1__0" = Some (inl ValueError) /\
  int "" = Some (inl ValueError) /\
  int (String "239" (String "188" (String "146" EmptyString))) = None /\
  int "1234567890123456789" = None.
Proof. repeat split. Qed.

End Decimal.

(** X7. The id the API writes for a book that [resolve_book] returns,
    when sent back as the id of an update or of a delete, reaches that same
    book (for a key that is not negative and has at most 18 digits): the
    update returns the book of that key with the four fields of its input,
    the delete succeeds and the key is gone. *)
Theorem written_id_reaches_its_book {K : AutoField}
  (k : Z) (b : Book.t) (d : BookInput.t) (db : Store) :
  Query.resolve_book (Some k) db = (inr (VBook b), db) ->
  0 <= k < 10 ^ 18 ->
  exists i,
    BookType.id b = Some i /\
    key_of (Some i) = Some k /\
    (exists b',
       outcome (UpdateBook.mutate (BookInput.set_id (Some i) d)) db =
         inr (mkPayload (Some b')) /\
       Book.id b' = Some k /\
       Book.title b' = BookInput.title d /\
       Book.author b' = BookInput.author d /\
       Book.year_published b' = BookInput.year_published d /\
       Book.review b' = BookInput.review d) /\
    outcome (DeleteBook.mutate (Some i)) db = inr None /\
    outcome (Query.resolve_book (Some k)) (store_after (DeleteBook.mutate (Some i)) db) =
      inl DoesNotExist.
Proof.
  intros Hb Hk. rewrite resolve_book_eq in Hb.
  destruct (objects.get (Some k) db) as [[e|b0] db0] eqn:E; [discriminate|].
  inversion Hb; subst b0 db0. apply get_inv in E.
  destruct E as (k' & r & Hk' & Hr & -> & _). inversion Hk'; subst k'.
  destruct (identifies_In k r db Hr) as [_ Hid].
  exists (PyInt.str k).
  assert (Hkey : key_of (Some (PyInt.str k)) = Some k).
  { unfold key_of.
    rewrite (get_prep_value_plain _ _ (int_str k Hk)). reflexivity. }
  split; [unfold BookType.id; simpl; rewrite Hid; reflexivity|].
  split; [exact Hkey|]. split; [|split].
  - exists (updated k d). unfold outcome.
    rewrite (update_found (BookInput.set_id (Some (PyInt.str k)) d) k r db Hkey Hr).
    repeat split.
  - unfold outcome. rewrite (delete_found _ k r db Hkey Hr). reflexivity.
  - unfold outcome, store_after. rewrite (delete_found _ k r db Hkey Hr).
    cbn [snd]. rewrite resolve_book_eq, get_absent by apply absent_after_delete.
    reflexivity.
Qed.

Lemma written_id_reaches_its_book_witness :
  exists i,
    BookType.id (from_db row2) = Some i /\
    key_of (K := strict_keys) (Some i) = Some 2 /\
    (exists b',
       outcome (UpdateBook.mutate (K := strict_keys)
                  (BookInput.set_id (Some i) book_A)) store3 =
         inr (mkPayload (Some b')) /\
       Book.id b' = Some 2 /\
       Book.title b' = BookInput.title book_A /\
       Book.author b' = BookInput.author book_A /\
       Book.year_published b' = BookInput.year_published book_A /\
       Book.review b' = BookInput.review book_A) /\
    outcome (DeleteBook.mutate (K := strict_keys) (Some i)) store3 = inr None /\
    outcome (Query.resolve_book (Some 2))
      (store_after (DeleteBook.mutate (K := strict_keys) (Some i)) store3) =
      inl DoesNotExist.
Proof.
  apply (written_id_reaches_its_book (K := strict_keys) 2 (from_db row2) book_A store3);
    [reflexivity | lia].
Defined.

(** X13. An update or a delete mutation whose id is a plain string (ASCII,
    at most 18 digits) holding a character that is neither a digit, a
    sign, an underscore nor white space raises [ValueError], whatever the
    store holds, and leaves the store as it was. *)
Theorem stray_id_raises_ValueError {K : AutoField}
  (s : string) (c : ascii) (d : BookInput.t) (db : Store) :
  PyInt.plain (list_ascii_of_string s) = true ->
  In c (list_ascii_of_string s) ->
  PyInt.stray c ->
  UpdateBook.mutate (BookInput.set_id (Some s) d) db = (inl ValueError, db) /\
  DeleteBook.mutate (Some s) db = (inl ValueError, db).
Proof.
  intros Hplain Hin Hc.
  assert (Hget : outcome (objects.get_id (Some s)) db = inl ValueError).
  { unfold outcome. rewrite (get_id_coercion_raises s ValueError db); [reflexivity|].
    apply get_prep_value_plain. apply (int_stray s c Hplain Hin Hc). }
  split.
  - apply update_raises. exact Hget.
  - apply delete_raises. exact Hget.
Qed.

Lemma stray_id_raises_ValueError_witness :
  UpdateBook.mutate (K := strict_keys) (BookInput.set_id (Some "1x"%string) book_A2)
    store3 = (inl ValueError, store3) /\
  DeleteBook.mutate (K := strict_keys) (Some "1x"%string) store3 =
    (inl ValueError, store3).
Proof.
  apply (stray_id_raises_ValueError (K := strict_keys) "1x" "x"%char book_A2 store3).
  - reflexivity.
  - right. left. reflexivity.
  - unfold PyInt.stray. change (PyInt.code "x"%char) with 120. lia.
Defined.
